(** * Verification of the multi-key JSON sort engine of [json_sorter.py]

    A shallow embedding of [sort_json_data], [get_nested_value],
    [prepare_data_with_nested_keys] and the sorting part of [main], first as
    functions on values, then as runs on a store of objects; then the
    properties of the engine, the numbered ones at the end.

    Modelling conventions.
    - A JSON value is a tagged union; a Python [dict] is an association
      list in insertion order (Python dicts keep it, and it is what the
      output file shows).  A key occurs at most once in a Python dict:
      [wf_value] says so, and the properties that need the symmetry of
      [==] assume it.
    - A Python [int] is a [Z].  A Python [float] is an exact rational, one
      of the two infinities or NaN: Python compares [int] with [float]
      exactly, so nothing is lost for ordering.  [json.load] reads the text
      [NaN] as one object of the [json] module; [x is y], which lists,
      tuples and dicts test before [x == y], differs from [x == y] on that
      object only, and is modelled for it.
    - A Python [str] is a [string] of UTF-8 bytes: byte-wise lexicographic
      order on UTF-8 is the code point order Python uses.
    - An exception is an [Err] result; the first one raised wins.
    - [json.loads] is a parameter.  [sorted] is CPython's [list.sort] on
      the keys with Python's [<], as it runs on a list of fewer than 64
      items: the run the list starts with, then binary insertion. *)

From Stdlib Require Import ZArith QArith String Ascii List Bool Lia Permutation.
From stdpp Require Import base tactics option list gmap strings.

Set Warnings "-register-all".
Local Close Scope Q_scope.
Local Open Scope string_scope.
Local Open Scope list_scope.
Local Open Scope nat_scope.

(** ** Exceptions and the error monad *)

Inductive exn :=
| KeyError (msg : string)
| ValueError (msg : string)
| TypeError
| AttributeError
| JSONDecodeError.

Inductive result (A : Type) :=
| Ok (a : A)
| Err (e : exn).
Arguments Ok {A} a.
Arguments Err {A} e.

Definition bind {A B} (m : result A) (k : A -> result B) : result B :=
  match m with
  | Ok a => k a
  | Err e => Err e
  end.

Notation "'let*' x ':=' m 'in' k" := (bind m (fun x => k))
  (at level 10, x name, m at level 100, k at level 200).

Fixpoint mapM {A B} (f : A -> result B) (l : list A) : result (list B) :=
  match l with
  | [] => Ok []
  | x :: l' => let* y := f x in let* ys := mapM f l' in Ok (y :: ys)
  end.

Fixpoint foldM {A S} (f : S -> A -> result S) (l : list A) (s : S) : result S :=
  match l with
  | [] => Ok s
  | x :: l' => let* s' := f s x in foldM f l' s'
  end.

(** ** JSON values as Python holds them *)

(** A [float]: a finite number, an infinity, or NaN.  [json.loads] reads
    [NaN] as the one NaN object of the [json] module, so that every NaN in
    loaded data is that same object. *)
Inductive pyfloat :=
| FFin (q : Q)
| FInf
| FNegInf
| FNaN.

Inductive value :=
| VNone
| VBool (b : bool)
| VInt (z : Z)
| VFloat (f : pyfloat)
| VStr (s : string)
| VList (l : list value)
| VDict (d : list (string * value)).

Abbreviation dict := (list (string * value)).

Fixpoint dict_get (k : string) (d : dict) : option value :=
  match d with
  | [] => None
  | (k', v) :: d' => if String.eqb k k' then Some v else dict_get k d'
  end.

(** [d[k] = v]: overwrite in place, or append a new entry. *)
Fixpoint dict_set (k : string) (v : value) (d : dict) : dict :=
  match d with
  | [] => [(k, v)]
  | (k', v') :: d' =>
      if String.eqb k k' then (k', v) :: d' else (k', v') :: dict_set k v d'
  end.

(** ** Python's comparisons on these values *)

(** How two floats compare; NaN compares with nothing, not with itself
    either. *)
Definition float_cmp (x y : pyfloat) : option comparison :=
  match x, y with
  | FNaN, _ | _, FNaN => None
  | FFin p, FFin q => Some (Qcompare p q)
  | FNegInf, FNegInf => Some Eq
  | FInf, FInf => Some Eq
  | FNegInf, _ => Some Lt
  | _, FNegInf => Some Gt
  | _, FInf => Some Lt
  | FInf, _ => Some Gt
  end.

(** [bool], [int] and [float] compare with each other as numbers. *)
Definition as_num (v : value) : option pyfloat :=
  match v with
  | VBool b => Some (FFin (inject_Z (if b then 1 else 0)))
  | VInt z => Some (FFin (inject_Z z))
  | VFloat f => Some f
  | _ => None
  end.

(** [a is b], where it can differ from [a == b]: on the NaN object. *)
Definition is_nan (v : value) : bool :=
  match v with
  | VFloat FNaN => true
  | _ => false
  end.

Definition py_same (a b : value) : bool := is_nan a && is_nan b.

(** Sequence comparison, shared by [list] and [tuple]: the first index at
    which the items are neither the same object nor [==] decides, by [<] on
    those items; when there is none the shorter sequence is the smaller. *)
Definition seq_eq {A} (eq : A -> A -> bool) : list A -> list A -> bool :=
  fix go l1 l2 :=
    match l1, l2 with
    | [], [] => true
    | x :: l1', y :: l2' => eq x y && go l1' l2'
    | _, _ => false
    end.

Definition seq_lt {A} (eq : A -> A -> bool) (lt : A -> A -> result bool)
  : list A -> list A -> result bool :=
  fix go l1 l2 :=
    match l1, l2 with
    | [], [] => Ok false
    | [], _ :: _ => Ok true
    | _ :: _, [] => Ok false
    | x :: l1', y :: l2' => if eq x y then go l1' l2' else lt x y
    end.

(** [a == b]. Never raises. Two dicts are equal when they have as many
    entries and every entry of the first is in the second with an equal
    value.  The items of two lists, and the values of two dicts, are equal
    when they are the same object or [==]. *)
Fixpoint py_eq (a b : value) {struct a} : bool :=
  match a, b with
  | VNone, VNone => true
  | VStr s, VStr t => String.eqb s t
  | VList l1, VList l2 => seq_eq (fun x y => py_same x y || py_eq x y) l1 l2
  | VDict d1, VDict d2 =>
      Nat.eqb (length d1) (length d2) &&
      (fix all (d : dict) : bool :=
         match d with
         | [] => true
         | (k, v) :: d' =>
             match dict_get k d2 with
             | Some w => py_same v w || py_eq v w
             | None => false
             end && all d'
         end) d1
  | _, _ =>
      match as_num a, as_num b with
      | Some x, Some y =>
          match float_cmp x y with Some Eq => true | _ => false end
      | _, _ => false
      end
  end.

(** [a is b or a == b], the test the containers make on their items. *)
Definition py_same_or_eq (a b : value) : bool := py_same a b || py_eq a b.

(** [a < b]. Raises [TypeError] between values Python does not order. *)
Fixpoint py_lt (a b : value) {struct a} : result bool :=
  match a, b with
  | VStr s, VStr t => Ok (String.ltb s t)
  | VList l1, VList l2 => seq_lt py_same_or_eq py_lt l1 l2
  | _, _ =>
      match as_num a, as_num b with
      | Some x, Some y =>
          Ok match float_cmp x y with Some Lt => true | _ => false end
      | _, _ => Err TypeError
      end
  end.

Definition tuple_lt : list value -> list value -> result bool :=
  seq_lt py_same_or_eq py_lt.

(** ** The sort engine: [sort_json_data] *)

Definition float_inf : value := VFloat FInf.
Definition float_neg_inf : value := VFloat FNegInf.

Fixpoint is_substring (p s : string) : bool :=
  String.prefix p s ||
  match s with
  | EmptyString => false
  | String _ s' => is_substring p s'
  end.

(** [key in item], for a [str] key. *)
Definition py_contains (item : value) (key : string) : result bool :=
  match item with
  | VDict d => Ok (match dict_get key d with Some _ => true | None => false end)
  | VList l => Ok (existsb (fun x => py_eq x (VStr key)) l)
  | VStr s => Ok (is_substring key s)
  | _ => Err TypeError
  end.

(** [item[key]], for a [str] key: only a dict can be indexed by it. *)
Definition py_getitem (item : value) (key : string) : result value :=
  match item with
  | VDict d =>
      match dict_get key d with
      | Some v => Ok v
      | None => Err (KeyError key)
      end
  | _ => Err TypeError
  end.

(** The [reverse] argument: one flag, or one flag per key. *)
Inductive reverse_arg :=
| RevBool (b : bool)
| RevList (l : list bool).

Definition missing_key_message (key : string) : string :=
  "Key '" ++ key ++ "' not found in item".

Definition reverse_length_message : string :=
  "Length of reverse list must match number of sort keys".

(** The closure [get_sort_value] of the source, with the captured
    [missing_key_strategy] as its first argument.  [lookup_value] is the
    code from [value = item[key]] on, which an unknown strategy falls
    through to. *)
Definition lookup_value (item : value) (key : string) (is_reverse : bool)
  : result value :=
  let* v := py_getitem item key in
  match v with
  | VNone => Ok (if negb is_reverse then float_neg_inf else float_inf)
  | _ => Ok v
  end.

Definition get_sort_value (missing_key_strategy : string)
    (item : value) (key : string) (is_reverse : bool) : result value :=
  let* present := py_contains item key in
  if negb present then
    if String.eqb missing_key_strategy "error" then
      Err (KeyError (missing_key_message key))
    else if String.eqb missing_key_strategy "first" then
      Ok (if negb is_reverse then float_neg_inf else float_inf)
    else if String.eqb missing_key_strategy "last" then
      Ok (if negb is_reverse then float_inf else float_neg_inf)
    else lookup_value item key is_reverse
  else lookup_value item key is_reverse.

(** The closure [sort_key]: the tuple of the values of the keys, paired
    with their flags by [zip]. *)
Definition sort_key (missing_key_strategy : string) (sort_keys : list string)
    (reverse_list : list bool) (item : value) : result (list value) :=
  mapM (fun kr => get_sort_value missing_key_strategy item (fst kr) (snd kr))
       (combine sort_keys reverse_list).

(** *** The builtin [sorted(data, key=...)]

    The keys of all items are computed first, in order, and an exception of
    the key function ends the call.  The items are then put in order by
    CPython's [list.sort], with [<] on the keys only; the first comparison
    that raises ends the call.  On a list of fewer than 64 items that sort
    is what is written here, from [Objects/listobject.c] as of CPython
    3.12: [count_run] finds the run the list starts with and [binarysort]
    inserts the items after it, one by one and each by a binary search,
    into the items before it.  A longer list is sorted in runs of this kind
    that are then merged; that gives the same list unless comparisons
    contradict each other, which those of the values here do only when a
    key holds NaN. *)
Section Sorted.
Context {A K : Type}.
Variable lt : K -> K -> result bool.

(** [count_run]: the run that the list starts with.  The first comparison
    tells whether it goes down; a run that goes down, each item smaller
    than the one before it, is reversed; a run that does not go down ends
    before the first item that is smaller than the one before it. *)
Fixpoint ascending_run (prev : K * A) (l : list (K * A))
  : result (list (K * A) * list (K * A)) :=
  match l with
  | [] => Ok ([], [])
  | x :: l' =>
      let* smaller := lt (fst x) (fst prev) in
      if smaller then Ok ([], l)
      else let* rr := ascending_run x l' in Ok (x :: fst rr, snd rr)
  end.

Fixpoint descending_run (prev : K * A) (l : list (K * A))
  : result (list (K * A) * list (K * A)) :=
  match l with
  | [] => Ok ([], [])
  | x :: l' =>
      let* smaller := lt (fst x) (fst prev) in
      if smaller
      then let* rr := descending_run x l' in Ok (x :: fst rr, snd rr)
      else Ok ([], l)
  end.

Definition count_run (l : list (K * A))
  : result (list (K * A) * list (K * A)) :=
  match l with
  | x0 :: x1 :: l' =>
      let* descending := lt (fst x1) (fst x0) in
      if descending
      then let* rr := descending_run x1 l' in
           Ok (rev (x0 :: x1 :: fst rr), snd rr)
      else let* rr := ascending_run x1 l' in
           Ok (x0 :: x1 :: fst rr, snd rr)
  | _ => Ok (l, [])
  end.

(** The item in the middle of [s], at index [len(s) >> 1], with the items
    before it and the items after it. *)
Definition split_mid (s : list (K * A))
  : option (list (K * A) * (K * A) * list (K * A)) :=
  let p := Nat.div2 (length s) in
  match skipn p s with
  | m :: s2 => Some (firstn p s, m, s2)
  | [] => None
  end.

(** One turn of [binarysort]: the pivot goes where a binary search puts it,
    to the left of the middle item when it is smaller than that item, to
    the right of it otherwise.  [fuel] bounds the halvings; the length of
    [s] is enough. *)
Fixpoint bisect_insert (fuel : nat) (pivot : K * A) (s : list (K * A))
  : result (list (K * A)) :=
  match fuel, split_mid s with
  | S fuel', Some (s1, m, s2) =>
      let* smaller := lt (fst pivot) (fst m) in
      if smaller
      then let* r := bisect_insert fuel' pivot s1 in Ok (r ++ m :: s2)
      else let* r := bisect_insert fuel' pivot s2 in Ok (s1 ++ m :: r)
  | _, _ => Ok (pivot :: s)
  end.

Definition binarysort (run rest : list (K * A)) : result (list (K * A)) :=
  foldM (fun s pivot => bisect_insert (length s) pivot s) rest run.

Definition sort_keyed (l : list (K * A)) : result (list (K * A)) :=
  let* rr := count_run l in
  binarysort (fst rr) (snd rr).

Definition sorted_by (key : A -> result K) (l : list A) : result (list A) :=
  let* keyed := mapM (fun x => let* k := key x in Ok (k, x)) l in
  let* out := sort_keyed keyed in
  Ok (map snd out).
End Sorted.

Definition py_sorted {A} (key : A -> result (list value)) (l : list A)
  : result (list A) :=
  sorted_by tuple_lt key l.

(** Lines 52 to 58: one flag stands for as many as there are keys; a list
    of flags must be as long as the list of keys. *)
Definition normalize_reverse (reverse : reverse_arg) (sort_keys : list string)
  : result (list bool) :=
  match reverse with
  | RevBool b => Ok (repeat b (length sort_keys))
  | RevList l =>
      if negb (Nat.eqb (length l) (length sort_keys))
      then Err (ValueError reverse_length_message)
      else Ok l
  end.

Section Engine.
(** [json.loads], of the standard library. *)
Variable json_loads : string -> result value.

(** Lines 52 to 89: the [reverse] argument is normalised, then the list
    is sorted. *)
Definition sort_json_list (data : list value) (sort_keys : list string)
    (reverse : reverse_arg) (missing_key_strategy : string) : result value :=
  let* reverse_list := normalize_reverse reverse sort_keys in
  let* sorted_data :=
    py_sorted (sort_key missing_key_strategy sort_keys reverse_list) data in
  Ok (VList sorted_data).

(** Lines 40 to 89, which a call reaches when [data] is not a dict that
    wraps one list. *)
Definition sort_json_flat (data : value) (sort_keys : list string)
    (reverse : reverse_arg) (missing_key_strategy : string) : result value :=
  let data := match data with VDict _ => VList [data] | _ => data end in
  let* data := match data with VStr s => json_loads s | _ => Ok data end in
  match data with
  | VList l => sort_json_list l sort_keys reverse missing_key_strategy
  | _ => Ok data
  end.

(** The whole function.  Its recursive call is on a list, which goes
    straight to the lines modelled by [sort_json_flat]. *)
Definition sort_json_data (data : value) (sort_keys : list string)
    (reverse : reverse_arg) (missing_key_strategy : string) : result value :=
  match data with
  | VDict [(key, VList lst)] =>
      let* sorted_list :=
        sort_json_flat (VList lst) sort_keys reverse missing_key_strategy in
      Ok (VDict [(key, sorted_list)])
  | _ => sort_json_flat data sort_keys reverse missing_key_strategy
  end.
End Engine.

(** ** Dot paths and the sorting part of [main] *)

Definition contains_dot (s : string) : bool :=
  existsb (Ascii.eqb ".") (list_ascii_of_string s).

(** [s.split(c)] *)
Fixpoint split_on (c : ascii) (s : string) : list string :=
  match s with
  | EmptyString => [EmptyString]
  | String a s' =>
      if Ascii.eqb a c then EmptyString :: split_on c s'
      else match split_on c s' with
           | [] => [String a EmptyString]
           | w :: ws => String a w :: ws
           end
  end.

Definition nested_key_message (key key_path : string) : string :=
  "Key '" ++ key ++ "' not found in path '" ++ key_path ++ "'".

Fixpoint get_nested_loop (key_path : string) (keys : list string)
    (current : value) : result value :=
  match keys with
  | [] => Ok current
  | key :: keys' =>
      match current with
      | VDict d =>
          match dict_get key d with
          | Some v => get_nested_loop key_path keys' v
          | None => Err (KeyError (nested_key_message key key_path))
          end
      | _ => Err (KeyError (nested_key_message key key_path))
      end
  end.

Definition get_nested_value (item : value) (key_path : string) : result value :=
  get_nested_loop key_path (split_on "." key_path) item.

(** [item.copy()]: dicts and lists have the method. *)
Definition py_copy (item : value) : result value :=
  match item with
  | VDict _ | VList _ => Ok item
  | _ => Err AttributeError
  end.

(** [flat_item[key] = v], for a [str] key. *)
Definition py_setitem (flat_item : value) (key : string) (v : value)
  : result value :=
  match flat_item with
  | VDict d => Ok (VDict (dict_set key v d))
  | _ => Err TypeError
  end.

(** The body of the inner loop of [prepare_data_with_nested_keys]: only
    [KeyError] is caught. *)
Definition flatten_key (item flat_item : value) (key_path : string)
  : result value :=
  if contains_dot key_path then
    match get_nested_value item key_path with
    | Ok v => py_setitem flat_item key_path v
    | Err (KeyError _) => py_setitem flat_item key_path VNone
    | Err e => Err e
    end
  else Ok flat_item.

Definition prepare_item (sort_keys : list string) (item : value) : result value :=
  let* flat_item := py_copy item in
  foldM (flatten_key item) sort_keys flat_item.

Definition prepare_data_with_nested_keys (data : list value)
    (sort_keys : list string) : result (list value) :=
  mapM (prepare_item sort_keys) data.

(** The comprehension that drops the flattened keys from an item. *)
Definition restore_item (keys : list string) (item : value) : result value :=
  match item with
  | VDict d =>
      Ok (VDict (List.filter
                   (fun kv => negb (existsb (String.eqb (fst kv)) keys)
                              || negb (contains_dot (fst kv))) d))
  | _ => Err AttributeError
  end.

(** Lines 216 to 234 of [main]: no flag means ascending, one flag is for
    all keys, several flags must be as many as the keys. *)
Definition main_reverse_arg (reverse : list bool) (keys : list string)
  : result reverse_arg :=
  match reverse with
  | [] => Ok (RevBool false)
  | [b] => Ok (RevBool b)
  | _ =>
      if negb (Nat.eqb (length reverse) (length keys))
      then Err (ValueError reverse_length_message)
      else Ok (RevList reverse)
  end.

Section Main.
Variable json_loads : string -> result value.

(** The value of [sorted_data] that [main] previews or saves, from the
    loaded [data] and the parsed arguments: [keys], [reverse] (the flags
    of [--reverse], empty when the option is absent) and [missing_key].
    Where [main] prints a message and exits with status 1 the result is
    the exception behind it; the direction count check of [main] gives
    the same [ValueError] as the one of [sort_json_data]. *)
Definition main_sorted_data (data : value) (keys : list string)
    (reverse : list bool) (missing_key : string) : result value :=
  let original_is_dict := match data with VDict _ => true | _ => false end in
  let has_nested_keys := existsb contains_dot keys in
  let* data_to_sort :=
    match data with
    | VList l =>
        if has_nested_keys
        then let* p := prepare_data_with_nested_keys l keys in Ok (VList p)
        else Ok data
    | _ => Ok data
    end in
  let* reverse_arg := main_reverse_arg reverse keys in
  let* sorted_data :=
    sort_json_data json_loads data_to_sort keys reverse_arg missing_key in
  let* sorted_data :=
    match data, sorted_data with
    | VList _, VList s =>
        if has_nested_keys
        then let* r := mapM (restore_item keys) s in Ok (VList r)
        else Ok sorted_data
    | _, _ => Ok sorted_data
    end in
  match sorted_data with
  | VList [x] => if original_is_dict then Ok x else Ok sorted_data
  | _ => Ok sorted_data
  end.
End Main.

(** ** The same code on a store of objects

    Python lists and dicts are objects that a caller and a callee share.
    To speak of what a call does to the objects of its caller, the list
    under sort and its items live in a store: a list object holds the
    locations of its items, an item object holds its value.  The values
    inside an item are not objects of their own; the code assigns to no
    object but the copy [flat_item] and the lists it creates itself.  A
    computation runs on a store and ends with a value or an exception, and
    the store it leaves; it is stuck ([None]) on a store that is not one of
    a Python program: a location without object, or a list where an item is
    expected. *)

Abbreviation loc := nat.

Inductive obj :=
| OList (items : list loc)
| OItem (v : value).

Abbreviation heap := (gmap loc obj).

Definition M (A : Type) : Type := heap -> option (result A * heap).

Definition ret {A} (a : A) : M A := fun h => Some (Ok a, h).
Definition lift {A} (r : result A) : M A := fun h => Some (r, h).
Definition stuck {A} : M A := fun _ => None.

Definition bindM {A B} (m : M A) (k : A -> M B) : M B :=
  fun h =>
    match m h with
    | Some (Ok a, h') => k a h'
    | Some (Err e, h') => Some (Err e, h')
    | None => None
    end.

Notation "'do*' x ':=' m 'in' k" := (bindM m (fun x => k))
  (at level 10, x name, m at level 100, k at level 200).

Fixpoint for_each {A} (f : A -> M unit) (l : list A) : M unit :=
  match l with
  | [] => ret tt
  | x :: l' => do* _u := f x in for_each f l'
  end.

Fixpoint mapMM {A B} (f : A -> M B) (l : list A) : M (list B) :=
  match l with
  | [] => ret []
  | x :: l' => do* y := f x in do* ys := mapMM f l' in ret (y :: ys)
  end.

(** A new object, at a location not in use. *)
Definition alloc (o : obj) : M loc :=
  fun h => let l := fresh (dom h) in Some (Ok l, <[l := o]> h).

Definition read (l : loc) : M obj :=
  fun h => match h !! l with Some o => Some (Ok o, h) | None => None end.

Definition write (l : loc) (o : obj) : M unit :=
  fun h =>
    match h !! l with
    | Some _ => Some (Ok tt, <[l := o]> h)
    | None => None
    end.

Definition read_list (l : loc) : M (list loc) :=
  do* o := read l in
  match o with OList ls => ret ls | OItem _ => stuck end.

Definition read_item (l : loc) : M value :=
  do* o := read l in
  match o with OItem v => ret v | OList _ => stuck end.

(** [item.copy()] *)
Definition copy_h (item : loc) : M loc :=
  do* v := read_item item in
  do* c := lift (py_copy v) in
  alloc (OItem c).

(** [flat_item[key] = v] *)
Definition setitem_h (flat_item : loc) (key : string) (v : value) : M unit :=
  do* old := read_item flat_item in
  do* new := lift (py_setitem old key v) in
  write flat_item (OItem new).

(** [lst.append(x)] *)
Definition append_h (lst : loc) (x : loc) : M unit :=
  do* ls := read_list lst in
  write lst (OList (ls ++ [x])).

Definition flatten_key_h (item flat_item : loc) (key_path : string) : M unit :=
  if contains_dot key_path then
    do* v := read_item item in
    match get_nested_value v key_path with
    | Ok x => setitem_h flat_item key_path x
    | Err (KeyError _) => setitem_h flat_item key_path VNone
    | Err e => lift (Err e)
    end
  else ret tt.

Definition prepare_data_with_nested_keys_h (data : loc)
    (sort_keys : list string) : M loc :=
  do* prepared_data := alloc (OList []) in
  do* items := read_list data in
  do* _u :=
    for_each
      (fun item =>
         do* flat_item := copy_h item in
         do* _u := for_each (flatten_key_h item flat_item) sort_keys in
         append_h prepared_data flat_item)
      items in
  ret prepared_data.

(** Lines 52 to 89 on a list object: [sorted] reads the items and returns
    a new list of the same items. *)
Definition sort_json_list_h (data : loc) (sort_keys : list string)
    (reverse : reverse_arg) (missing_key_strategy : string) : M loc :=
  do* reverse_list := lift (normalize_reverse reverse sort_keys) in
  do* items := read_list data in
  do* values := mapMM read_item items in
  do* sorted_data :=
    lift (py_sorted
            (fun iv => sort_key missing_key_strategy sort_keys reverse_list
                         (snd iv))
            (combine items values)) in
  alloc (OList (map fst sorted_data)).

(** The objects of a decoded JSON text. *)
Definition alloc_value (v : value) : M loc :=
  match v with
  | VList l =>
      do* items := mapMM (fun x => alloc (OItem x)) l in
      alloc (OList items)
  | _ => alloc (OItem v)
  end.

Section EngineOnStore.
Variable json_loads : string -> result value.

Definition sort_json_data_h (data : loc) (sort_keys : list string)
    (reverse : reverse_arg) (missing_key_strategy : string) : M loc :=
  do* o := read data in
  match o with
  | OItem (VDict [(key, VList lst)]) =>
      do* sorted_list :=
        lift (sort_json_list lst sort_keys reverse missing_key_strategy) in
      alloc (OItem (VDict [(key, sorted_list)]))
  | OItem (VDict _) =>
      do* wrapped := alloc (OList [data]) in
      sort_json_list_h wrapped sort_keys reverse missing_key_strategy
  | OItem (VStr s) =>
      do* v := lift (json_loads s) in
      do* decoded := alloc_value v in
      match v with
      | VList _ =>
          sort_json_list_h decoded sort_keys reverse missing_key_strategy
      | _ => ret decoded
      end
  | OItem (VList _) => stuck
  | OItem _ => ret data
  | OList _ => sort_json_list_h data sort_keys reverse missing_key_strategy
  end.

Definition restore_item_h (keys : list string) (item : loc) : M loc :=
  do* v := read_item item in
  do* original_item := lift (restore_item keys v) in
  alloc (OItem original_item).

Definition restore_data_h (sorted_data : loc) (keys : list string) : M loc :=
  do* restored_data := alloc (OList []) in
  do* items := read_list sorted_data in
  do* _u :=
    for_each
      (fun item =>
         do* original_item := restore_item_h keys item in
         append_h restored_data original_item)
      items in
  ret restored_data.

Definition main_sorted_data_h (data : loc) (keys : list string)
    (reverse : list bool) (missing_key : string) : M loc :=
  do* o := read data in
  let original_is_dict :=
    match o with OItem (VDict _) => true | _ => false end in
  let is_list := match o with OList _ => true | _ => false end in
  let has_nested_keys := existsb contains_dot keys in
  do* data_to_sort :=
    if has_nested_keys && is_list
    then prepare_data_with_nested_keys_h data keys
    else ret data in
  do* reverse_arg := lift (main_reverse_arg reverse keys) in
  do* sorted_data :=
    sort_json_data_h data_to_sort keys reverse_arg missing_key in
  do* so := read sorted_data in
  do* sorted_data :=
    match so with
    | OList _ =>
        if has_nested_keys && is_list
        then restore_data_h sorted_data keys
        else ret sorted_data
    | OItem _ => ret sorted_data
    end in
  do* so := read sorted_data in
  match so with
  | OList [x] => if original_is_dict then ret x else ret sorted_data
  | _ => ret sorted_data
  end.
End EngineOnStore.

(** What a location stands for: a list object is the list of the values of
    its items, an item object is its value. *)
Definition item_at (h : heap) (l : loc) : option value :=
  match h !! l with
  | Some (OItem v) => Some v
  | _ => None
  end.

Fixpoint items_at (h : heap) (ls : list loc) : option (list value) :=
  match ls with
  | [] => Some []
  | l :: ls' =>
      match item_at h l, items_at h ls' with
      | Some v, Some vs => Some (v :: vs)
      | _, _ => None
      end
  end.

(** The store [h] holds the value [v] at [l], a list being a list object. *)
Definition holds (h : heap) (l : loc) (v : value) : Prop :=
  match h !! l with
  | Some (OList ls) => exists vs, items_at h ls = Some vs /\ v = VList vs
  | Some (OItem x) => x = v /\ forall vs, v <> VList vs
  | None => False
  end.

(** ** Well-formed values: a key occurs once in a dict *)



(** ** Statements about values and collections *)







(** Whether a value is a number for Python's comparisons. *)
Definition is_numeric (v : value) : bool :=
  match as_num v with
  | Some _ => true
  | None => false
  end.





(** The first value of a key tuple is minus infinity. *)
Definition head_neg_inf (t : list value) : Prop :=
  match t with
  | v :: _ => as_num v = Some FNegInf
  | [] => False
  end.

(** A collection, as opposed to a JSON text or a scalar. *)
Definition is_collection (data : value) : bool :=
  match data with
  | VList _ | VDict _ => true
  | _ => false
  end.

(** The records of a collection that the engine puts in order. *)
Definition records_of (data : value) : list value :=
  match data with
  | VList l => l
  | VDict [(_, VList l)] => l
  | VDict _ => [data]
  | _ => []
  end.

(** A record that is a dict without one of the sort keys. *)
Definition lacks_key (keys : list string) (x : value) : bool :=
  match x with
  | VDict d =>
      existsb (fun k => match dict_get k d with
                        | None => true
                        | Some _ => false
                        end) keys
  | _ => false
  end.

Definition is_text (v : value) : bool :=
  match v with
  | VStr _ => true
  | _ => false
  end.

(** Two values that [<] orders: two numbers or two texts. *)
Definition comparable (a b : value) : bool :=
  is_numeric a && is_numeric b || is_text a && is_text b.

(** The record is a dict where field [k] is a number, is null or is
    missing. *)
Definition number_or_absent (k : string) (x : value) : bool :=
  match x with
  | VDict d =>
      match dict_get k d with
      | Some VNone | None => true
      | Some v => is_numeric v
      end
  | _ => false
  end.

(** The record is a dict where field [k] is a text. *)
Definition text_at (k : string) (x : value) : bool :=
  match x with
  | VDict d =>
      match dict_get k d with
      | Some v => is_text v
      | None => false
      end
  | _ => false
  end.

(** Field [k] is of one kind over the records: numbers, with nulls and
    gaps, or texts without. *)
Definition one_kind (data : list value) (k : string) : bool :=
  forallb (number_or_absent k) data || forallb (text_at k) data.

(** ** Statements about [sorted] *)

(** An item under its key, as [sorted_by] pairs them. *)
Definition with_key {A K} (key : A -> result K) (x : A) : result (K * A) :=
  let* k := key x in Ok (k, x).

(** [f] on the value of a result. *)
Definition rmap {A B} (f : A -> B) (r : result A) : result B :=
  let* a := r in Ok (f a).

(** A renaming of the items under their keys. *)
Definition on_item {A B K} (f : B -> A) (y : K * B) : K * A :=
  (fst y, f (snd y)).

(** No item is smaller than the one before it. *)
Inductive ascending {A K} (lt : K -> K -> result bool)
  : list (K * A) -> Prop :=
| asc_nil : ascending lt []
| asc_one x : ascending lt [x]
| asc_cons x y l :
    lt (fst y) (fst x) = Ok false -> ascending lt (y :: l) ->
    ascending lt (x :: y :: l).

(** Each item is smaller than the next one. *)
Inductive rising {A K} (lt : K -> K -> result bool)
  : list (K * A) -> Prop :=
| rising_nil : rising lt []
| rising_one x : rising lt [x]
| rising_cons x y l :
    lt (fst x) (fst y) = Ok true -> rising lt (y :: l) ->
    rising lt (x :: y :: l).





(** ** Statements about runs on the store *)

(** The item object at [l] has the value [v]. *)
Definition item_is (h : heap) (l : loc) (v : value) : Prop :=
  h !! l = Some (OItem v).

(** Running [m] keeps every object of [h0], and its value satisfies
    [post]. *)
Definition keeps (h0 : heap) {A} (m : M A) (post : A -> Prop) : Prop :=
  forall h r h',
    h0 ⊆ h -> m h = Some (r, h') ->
    h0 ⊆ h' /\ forall a, r = Ok a -> post a.

(** Postconditions: nothing is said, and the location has no object in
    [h0]. *)
Definition any {A} : A -> Prop := fun _ => True.
Definition unused (h0 : heap) : loc -> Prop := fun l => h0 !! l = None.

(** [f] makes, from an item, a new item that holds what [fp] computes from
    the value of the first, and changes no object. *)
Definition makes_item (f : loc -> M loc) (fp : value -> result value) : Prop :=
  forall h item v,
    item_is h item v ->
    exists r h',
      f item h = Some (r, h') /\ h ⊆ h' /\
      match r with
      | Ok l' => h !! l' = None /\ exists v', item_is h' l' v' /\ fp v = Ok v'
      | Err e => fp v = Err e
      end.

(** One turn of the outer loop of [prepare_data_with_nested_keys], up to the
    [append]. *)
Definition prepare_item_h (sort_keys : list string) (item : loc) : M loc :=
  do* flat_item := copy_h item in
  do* _u := for_each (flatten_key_h item flat_item) sort_keys in
  ret flat_item.

(** The outcome of a run against the outcome of the pure function. *)
Definition agrees (run : option (result loc * heap)) (pure : result value)
  : Prop :=
  exists r h',
    run = Some (r, h') /\
    match r with
    | Ok out => exists v', pure = Ok v' /\ holds h' out v'
    | Err e => pure = Err e
    end.

(** The object of a collection: a list or a dict. *)
Definition is_collection_obj (o : obj) : bool :=
  match o with
  | OList _ | OItem (VDict _) => true
  | OItem _ => false
  end.

(** What a run leaves of the store [h], in which [data] holds the
    collection [v]: the run ends; every object of [h] is in the final store
    as it was, so that [data] still holds [v]; and the outcome is the
    outcome [pure] of the function on values, held by the object
    returned. *)
Definition leaves_unchanged (h : heap) (data : loc) (v : value)
    (run : option (result loc * heap)) (pure : result value) : Prop :=
  exists r h',
    run = Some (r, h') /\
    (forall l o, h !! l = Some o -> h' !! l = Some o) /\
    holds h' data v /\
    match r with
    | Ok out => exists v', pure = Ok v' /\ holds h' out v'
    | Err e => pure = Err e
    end.

(** The object returned is one the caller does not have. *)
Definition returns_new (h : heap) (run : option (result loc * heap)) : Prop :=
  forall out h', run = Some (Ok out, h') -> h !! out = None.

(** ** Statements about dot paths and flattened records *)

Definition is_dict (v : value) : bool :=
  match v with
  | VDict _ => true
  | _ => false
  end.

(** The value at the end of a dot path, null when the path does not
    resolve. *)
Definition nested_or_null (item : value) (key_path : string) : value :=
  match get_nested_value item key_path with
  | Ok v => v
  | Err _ => VNone
  end.

(** [k] is a sort key with a dot in it. *)
Definition flattened (keys : list string) (k : string) : bool :=
  existsb (String.eqb k) keys && contains_dot k.

(** A record without its fields that have the name of a dotted sort key. *)
Definition without_flattened (keys : list string) (item : value) : value :=
  match item with
  | VDict d => VDict (List.filter (fun kv => negb (flattened keys (fst kv))) d)
  | _ => item
  end.

(** ** Closed inputs of the examples *)

(** The properties do not depend on the decoder; the closed examples, whose
    data is never a [str], are run with one that rejects every text. *)
Definition reject_text : string -> result value :=
  fun _ => Err JSONDecodeError.

(** The records [{"a": v}], [{}], [{"user": {"age": 30}}] and
    [{"name": "x"}]. *)
Definition rec_a (v : value) : value := VDict [("a", v)].
Definition rec_empty : value := VDict [].

Definition rec_user_age : value := VDict [("user", VDict [("age", VInt 30)])].
Definition rec_no_user : value := VDict [("name", VStr "x")].

(** A store with the list [[{"user":{"age":30}}, {"name":"x"}]] at 2. *)
Definition store_of_two_records : heap :=
  <[2 := OList [0; 1]]>
    (<[1 := OItem rec_no_user]> (<[0 := OItem rec_user_age]> ∅)).

(** A store with the list [[{"a": 2}, {"a": 1}]] at 2. *)
Definition store_of_two_numbers : heap :=
  <[2 := OList [0; 1]]>
    (<[1 := OItem (rec_a (VInt 1))]> (<[0 := OItem (rec_a (VInt 2))]> ∅)).

(** * Properties *)

(** ** The error monad *)

Lemma bind_Ok {A B} (m : result A) (k : A -> result B) b :
  bind m k = Ok b -> exists a, m = Ok a /\ k a = Ok b.
Proof. destruct m as [a|e]; simpl; [eauto | discriminate]. Qed.

Lemma bind_Err {A B} (m : result A) (k : A -> result B) e :
  bind m k = Err e -> m = Err e \/ exists a, m = Ok a /\ k a = Err e.
Proof. destruct m as [a|e']; simpl; [eauto | intros [= ->]; auto]. Qed.

Ltac inv_bind H :=
  let a := fresh "a" in
  let Ha := fresh "Ha" in
  apply bind_Ok in H; destruct H as (a & Ha & H).

Lemma mapM_Ok_Forall2 {A B} (f : A -> result B) l out :
  mapM f l = Ok out <-> Forall2 (fun x y => f x = Ok y) l out.
Proof.
  revert out; induction l as [|x l IH]; intros out; simpl.
  - split; [intros [= <-]; constructor | intros H; inversion H; reflexivity].
  - split.
    + intros H. inv_bind H. inv_bind H. injection H as <-.
      constructor; [assumption | now apply IH].
    + intros H. inversion H as [|? y ? ys Hy Hys]; subst.
      rewrite Hy; simpl. apply IH in Hys. now rewrite Hys.
Qed.

Lemma mapM_Err {A B} (f : A -> result B) l e :
  mapM f l = Err e -> exists x, In x l /\ f x = Err e.
Proof.
  induction l as [|x l IH]; simpl; [discriminate|].
  intros H. apply bind_Err in H as [H | (y & Hy & H)].
  - exists x; auto.
  - apply bind_Err in H as [H | (ys & _ & H)]; [|discriminate].
    destruct (IH H) as (x' & ? & ?). exists x'; auto.
Qed.

Lemma mapM_map {A B C} (f : B -> result C) (g : A -> B) l :
  mapM f (map g l) = mapM (fun x => f (g x)) l.
Proof. induction l as [|x l IH]; simpl; [reflexivity | now rewrite IH]. Qed.

Lemma mapM_ext {A B} (f g : A -> result B) l :
  (forall x, In x l -> f x = g x) -> mapM f l = mapM g l.
Proof.
  induction l as [|x l IH]; simpl; intros H; [reflexivity|].
  rewrite H by auto. rewrite IH by auto. reflexivity.
Qed.

(** ** Induction on values, through lists and dicts *)

Section ValueInd.
Variable P : value -> Prop.
Hypothesis HNone : P VNone.
Hypothesis HBool : forall b, P (VBool b).
Hypothesis HInt : forall z, P (VInt z).
Hypothesis HFloat : forall f, P (VFloat f).
Hypothesis HStr : forall s, P (VStr s).
Hypothesis HList : forall l, Forall P l -> P (VList l).
Hypothesis HDict : forall d, Forall (fun kv => P (snd kv)) d -> P (VDict d).

Fixpoint value_rect_nested (v : value) : P v :=
  match v with
  | VNone => HNone
  | VBool b => HBool b
  | VInt z => HInt z
  | VFloat f => HFloat f
  | VStr s => HStr s
  | VList l =>
      HList l ((fix go (l : list value) : Forall P l :=
                  match l with
                  | [] => @List.Forall_nil _ P
                  | x :: l' => @List.Forall_cons _ P x l' (value_rect_nested x) (go l')
                  end) l)
  | VDict d =>
      HDict d ((fix go (d : dict) : Forall (fun kv => P (snd kv)) d :=
                  match d with
                  | [] => @List.Forall_nil _ _
                  | (k, x) :: d' =>
                      @List.Forall_cons _ (fun kv => P (snd kv)) (k, x) d'
                        (value_rect_nested x) (go d')
                  end) d)
  end.
End ValueInd.

(** ** Order facts on numbers and strings *)












(** ** Dicts as association lists *)










(** ** [==] is symmetric and [<] is asymmetric *)









(** A comparison raises nothing but [TypeError]. *)
Lemma py_lt_Err a b e : py_lt a b = Err e -> e = TypeError.
Proof.
  revert b; induction a as [|b0|z|f|s|l IH|d IH] using value_rect_nested;
    intros b; destruct b as [| | | | |l2|d2]; simpl;
    try discriminate; try (intros [= <-]; reflexivity).
  change (seq_lt py_same_or_eq py_lt l l2 = Err e -> e = TypeError).
  revert l2; induction IH as [|x l Hx _ IHl]; intros [|y l2]; simpl;
    try discriminate.
  destruct (py_same_or_eq x y); [apply IHl | apply Hx].
Qed.

Lemma tuple_lt_Err t1 t2 e : tuple_lt t1 t2 = Err e -> e = TypeError.
Proof. exact (py_lt_Err (VList t1) (VList t2) e). Qed.

(** ** Without NaN, [==] and [<] are a consistent order *)








(** *** Numbers *)



Lemma py_eq_num_r a y b :
  as_num b = Some y ->
  py_eq a b = match as_num a with
              | Some x => match float_cmp x y with
                          | Some Eq => true
                          | _ => false
                          end
              | None => false
              end.
Proof. destruct b; try discriminate; intros [= <-]; now destruct a. Qed.



Lemma as_num_None_eq a b : as_num a = None -> as_num b <> None -> py_eq a b = false.
Proof. destruct a, b; simpl; congruence. Qed.

(** *** Sequences *)

Section SeqOrder.
Context {A : Type}.
Variable eq : A -> A -> bool.
Variable lt : A -> A -> result bool.
Variable ok : A -> Prop.


Hypothesis eq_sym : forall a b, ok a -> ok b -> eq a b = eq b a.
Hypothesis eq_trans :
  forall a b c, ok a -> ok b -> ok c ->
    eq a b = true -> eq b c = true -> eq a c = true.





Hypothesis lt_eq_l :
  forall a b c, ok a -> ok b -> ok c -> eq a b = true -> lt a c = lt b c.
Hypothesis lt_eq_r :
  forall a b c, ok a -> ok b -> ok c -> eq a b = true -> lt c a = lt c b.
Hypothesis lt_tricho :
  forall a b, ok a -> ok b ->
    lt a b = Ok false -> lt b a = Ok false -> eq a b = true.

End SeqOrder.

(** *** Values *)


















(** *** Key tuples *)





(** ** Ordered pairs of a list *)

Lemma ForallOrdPairs_app {X} (R : X -> X -> Prop) l1 l2 :
  ForallOrdPairs R (l1 ++ l2) <->
  ForallOrdPairs R l1 /\ ForallOrdPairs R l2 /\
  (forall x y, In x l1 -> In y l2 -> R x y).
Proof.
  induction l1 as [|a l1 IH]; simpl.
  - split; [intros H; repeat split; [constructor | assumption | tauto] | tauto].
  - split.
    + intros H. inversion H as [|? ? Ha Hl]; subst.
      apply IH in Hl as (H1 & H2 & H12).
      rewrite List.Forall_forall in Ha.
      repeat split; [constructor; [|assumption] | assumption |].
      * apply List.Forall_forall. intros y Hy. apply Ha, in_or_app. now left.
      * intros x y [<-|Hx] Hy; [apply Ha, in_or_app; now right | auto].
    + intros (H1 & H2 & H12). inversion H1 as [|? ? Ha Hl]; subst.
      constructor.
      * rewrite List.Forall_forall in Ha |- *. intros y Hy.
        apply in_app_or in Hy as [Hy|Hy]; [auto | apply H12; auto].
      * apply IH. repeat split; auto.
Qed.

Lemma ForallOrdPairs_rev {X} (R : X -> X -> Prop) l :
  ForallOrdPairs R l -> ForallOrdPairs (fun x y => R y x) (rev l).
Proof.
  induction 1 as [|a l Ha Hl IH]; simpl; [constructor|].
  apply ForallOrdPairs_app. repeat split; [assumption | repeat constructor |].
  intros x y Hx [<-|[]]. rewrite List.Forall_forall in Ha.
  apply Ha. now apply in_rev.
Qed.



(** ** The sort behind [sorted] *)

Section SortFacts.
Context {A K : Type}.
Variable lt : K -> K -> result bool.

Lemma split_mid_None (s : list (K * A)) : split_mid s = None <-> s = [].
Proof.
  unfold split_mid. split.
  - destruct (skipn (Nat.div2 (length s)) s) eqn:E; [|discriminate].
    intros _. apply (f_equal (@length _)) in E. rewrite length_skipn in E.
    simpl in E. destruct s as [|x s]; [reflexivity|]. exfalso.
    simpl length in E. pose proof (Nat.lt_div2 (S (length s))). lia.
  - now intros ->.
Qed.

Lemma split_mid_Some (s s1 s2 : list (K * A)) m :
  split_mid s = Some (s1, m, s2) ->
  s = s1 ++ m :: s2 /\ length s1 = Nat.div2 (length s).
Proof.
  unfold split_mid. destruct (skipn (Nat.div2 (length s)) s) eqn:E;
    [discriminate|]. intros [= <- <- <-]. split.
  - rewrite <- E. symmetry. apply firstn_skipn.
  - apply firstn_length_le. apply Nat.lt_le_incl.
    destruct s; [discriminate|]. apply Nat.lt_div2. simpl. lia.
Qed.

Lemma split_mid_shorter (s s1 s2 : list (K * A)) m fuel :
  split_mid s = Some (s1, m, s2) -> length s <= S fuel ->
  length s1 <= fuel /\ length s2 <= fuel.
Proof.
  intros H Hlen. apply split_mid_Some in H as [-> _].
  rewrite length_app in Hlen. simpl in Hlen. lia.
Qed.

(** Where [bisect_insert] puts the pivot: after an item it is not smaller
    than, before an item it is smaller than. *)
Lemma bisect_insert_spec fuel (x : K * A) s r :
  length s <= fuel -> bisect_insert lt fuel x s = Ok r ->
  exists s1 s2,
    s = s1 ++ s2 /\ r = s1 ++ x :: s2 /\
    match rev s1 with
    | y :: _ => lt (fst x) (fst y) = Ok false
    | [] => True
    end /\
    match s2 with
    | z :: _ => lt (fst x) (fst z) = Ok true
    | [] => True
    end.
Proof.
  revert s r. induction fuel as [|fuel IH]; intros s r Hlen H.
  - destruct s; [|simpl in Hlen; lia]. simpl in H. injection H as <-.
    exists [], []. now repeat split.
  - simpl in H. destruct (split_mid s) as [[[s1 m] s2]|] eqn:Hs.
    + destruct (split_mid_shorter _ _ _ _ _ Hs Hlen) as [H1 H2].
      apply split_mid_Some in Hs as [-> _].
      inv_bind H. destruct a.
      * inv_bind H. injection H as <-.
        destruct (IH _ _ H1 Ha0) as (l1 & l2 & -> & -> & Hl & Hr).
        exists l1, (l2 ++ m :: s2). rewrite <- !app_assoc. simpl.
        repeat split; [assumption|]. destruct l2; [exact Ha | exact Hr].
      * inv_bind H. injection H as <-.
        destruct (IH _ _ H2 Ha0) as (l1 & l2 & -> & -> & Hl & Hr).
        exists (s1 ++ m :: l1), l2. rewrite <- !app_assoc. simpl.
        repeat split; [|assumption].
        rewrite rev_app_distr. simpl. rewrite <- app_assoc. simpl.
        destruct (rev l1); [exact Ha | exact Hl].
    + apply split_mid_None in Hs as ->. injection H as <-.
      exists [], []. now repeat split.
Qed.

Lemma bisect_insert_perm fuel (x : K * A) s r :
  length s <= fuel -> bisect_insert lt fuel x s = Ok r ->
  Permutation (x :: s) r.
Proof.
  intros Hlen H.
  destruct (bisect_insert_spec _ _ _ _ Hlen H) as (s1 & s2 & -> & -> & _).
  apply Permutation_middle.
Qed.

Lemma bisect_insert_Err fuel (x : K * A) s e :
  bisect_insert lt fuel x s = Err e -> exists a b, lt a b = Err e.
Proof.
  revert s. induction fuel as [|fuel IH]; intros s H; simpl in H.
  - destruct (split_mid s) as [[[? ?] ?]|]; discriminate.
  - destruct (split_mid s) as [[[s1 m] s2]|]; [|discriminate].
    apply bind_Err in H as [H | (b & _ & H)]; [eauto|].
    destruct b; apply bind_Err in H as [H | (? & _ & H)];
      try discriminate; eauto.
Qed.

Lemma binarysort_perm (run rest out : list (K * A)) :
  binarysort lt run rest = Ok out -> Permutation (run ++ rest) out.
Proof.
  unfold binarysort. revert run. induction rest as [|x rest IH];
    intros run H; simpl in H.
  - injection H as <-. now rewrite app_nil_r.
  - inv_bind H. apply IH in H. rewrite <- H.
    apply bisect_insert_perm in Ha; [|reflexivity].
    rewrite <- Ha. symmetry. apply Permutation_middle.
Qed.

Lemma binarysort_Err (run rest : list (K * A)) e :
  binarysort lt run rest = Err e -> exists a b, lt a b = Err e.
Proof.
  unfold binarysort. revert run. induction rest as [|x rest IH];
    intros run H; simpl in H; [discriminate|].
  apply bind_Err in H as [H | (s & _ & H)]; [|eauto].
  eapply bisect_insert_Err; eauto.
Qed.

(** *** The runs *)

Lemma ascending_run_spec (prev : K * A) l run rest :
  ascending_run lt prev l = Ok (run, rest) ->
  l = run ++ rest /\ ascending lt (prev :: run).
Proof.
  revert prev run rest. induction l as [|x l IH]; intros prev run rest H;
    simpl in H.
  - injection H as <- <-. split; [reflexivity | constructor].
  - inv_bind H. destruct a.
    + injection H as <- <-. split; [reflexivity | constructor].
    + inv_bind H. destruct a as [run' rest']. injection H as <- <-.
      apply IH in Ha0 as [-> Hasc]. split; [reflexivity|].
      now constructor.
Qed.

Lemma rising_snoc (l : list (K * A)) y x :
  rising lt (l ++ [y]) -> lt (fst y) (fst x) = Ok true ->
  rising lt ((l ++ [y]) ++ [x]).
Proof.
  intros Hr Hlt. induction l as [|z l IH]; simpl in *.
  - constructor; [assumption | constructor].
  - destruct l as [|z' l]; simpl in *; inversion Hr; subst;
      (constructor; [assumption | auto]).
Qed.

Lemma descending_run_spec (prev : K * A) l run rest :
  descending_run lt prev l = Ok (run, rest) ->
  l = run ++ rest /\ rising lt (rev (prev :: run)).
Proof.
  revert prev run rest. induction l as [|x l IH]; intros prev run rest H;
    simpl in H.
  - injection H as <- <-. split; [reflexivity | constructor].
  - inv_bind H. destruct a.
    + inv_bind H. destruct a as [run' rest']. injection H as <- <-.
      apply IH in Ha0 as [-> Hr]. split; [reflexivity|].
      simpl in Hr |- *. now apply rising_snoc.
    + injection H as <- <-. split; [reflexivity | constructor].
Qed.

Lemma runs_Err (prev : K * A) l e :
  ascending_run lt prev l = Err e \/ descending_run lt prev l = Err e ->
  exists a b, lt a b = Err e.
Proof.
  revert prev. induction l as [|x l IH]; intros prev [H|H]; simpl in H;
    try discriminate;
    apply bind_Err in H as [H | (b & _ & H)]; eauto;
    destruct b; try discriminate;
    apply bind_Err in H as [H | (? & _ & H)]; try discriminate; eauto.
Qed.

Lemma count_run_Err (l : list (K * A)) e :
  count_run lt l = Err e -> exists a b, lt a b = Err e.
Proof.
  destruct l as [|x0 [|x1 l]]; simpl; try discriminate. intros H.
  apply bind_Err in H as [H | (b & _ & H)]; [eauto|].
  destruct b; apply bind_Err in H as [H | (? & _ & H)]; try discriminate;
    eapply runs_Err; eauto.
Qed.

Lemma count_run_perm (l run rest : list (K * A)) :
  count_run lt l = Ok (run, rest) -> Permutation l (run ++ rest).
Proof.
  destruct l as [|x0 [|x1 l]]; simpl.
  - intros [= <- <-]. reflexivity.
  - intros [= <- <-]. reflexivity.
  - intros H. inv_bind H. destruct a; inv_bind H; destruct a as [r t];
      injection H as <- <-.
    + apply descending_run_spec in Ha0 as [-> _].
      change (rev r ++ [x1]) with (rev (x1 :: r)).
      change ((rev (x1 :: r) ++ [x0]) ++ t) with (rev (x0 :: x1 :: r) ++ t).
      rewrite <- Permutation_rev. reflexivity.
    + apply ascending_run_spec in Ha0 as [-> _]. reflexivity.
Qed.

Lemma sort_keyed_perm (l out : list (K * A)) :
  sort_keyed lt l = Ok out -> Permutation l out.
Proof.
  unfold sort_keyed. intros H. inv_bind H. destruct a as [run rest].
  apply count_run_perm in Ha. apply binarysort_perm in H.
  now rewrite Ha.
Qed.

Lemma sort_keyed_Err (l : list (K * A)) e :
  sort_keyed lt l = Err e -> exists a b, lt a b = Err e.
Proof.
  unfold sort_keyed. intros H.
  apply bind_Err in H as [H | (rr & _ & H)].
  - eapply count_run_Err; eauto.
  - eapply binarysort_Err; eauto.
Qed.

(** *** What is in order stays as it is *)

Lemma ascending_run_all (prev : K * A) l :
  ascending lt (prev :: l) -> ascending_run lt prev l = Ok (l, []).
Proof.
  revert prev. induction l as [|x l IH]; intros prev H; simpl;
    [reflexivity|].
  inversion H as [| |? ? ? Hlt Hasc]; subst. rewrite Hlt. simpl.
  now rewrite (IH _ Hasc).
Qed.

Lemma sort_keyed_sorted (l : list (K * A)) :
  ascending lt l -> sort_keyed lt l = Ok l.
Proof.
  unfold sort_keyed. destruct l as [|x0 [|x1 l]]; intros H; simpl;
    try reflexivity.
  inversion H as [| |? ? ? Hlt Hasc]; subst. rewrite Hlt. simpl.
  now rewrite (ascending_run_all _ _ Hasc).
Qed.

(** *** Every item is not smaller than the one before it *)





Variable good : K -> Prop.
Hypothesis lt_asym :
  forall a b, good a -> good b -> lt a b = Ok true -> lt b a = Ok false.






End SortFacts.

(** *** Items with equal keys keep their order, where the keys are in a
    consistent order *)

Section Stability.
Context {A K : Type}.
Variable lt : K -> K -> result bool.
Variable eq : K -> K -> bool.
Variable rank : A -> nat.
Variable good : K -> Prop.
Hypothesis lt_asym :
  forall a b, good a -> good b -> lt a b = Ok true -> lt b a = Ok false.
Hypothesis eq_not_lt : forall a b, eq a b = true -> lt a b = Ok false.
Hypothesis le_trans :
  forall a b c, good a -> good b -> good c ->
    lt b a = Ok false -> lt c b = Ok false -> lt c a = Ok false.
Hypothesis lt_eq_l :
  forall a b c, good a -> good b -> good c ->
    eq a b = true -> lt a c = lt b c.







End Stability.

(** *** [sorted] commutes with a renaming of the items *)

Section SortedMap.
Context {A B K : Type}.
Variable lt : K -> K -> result bool.
Variable f : B -> A.

Lemma split_mid_map (s : list (K * B)) :
  split_mid (map (on_item f) s) =
  match split_mid s with
  | Some (s1, m, s2) =>
      Some (map (on_item f) s1, on_item f m, map (on_item f) s2)
  | None => None
  end.
Proof.
  unfold split_mid. rewrite length_map, skipn_map, firstn_map.
  now destruct (skipn (Nat.div2 (length s)) s).
Qed.

Lemma bisect_insert_map fuel (x : K * B) s :
  bisect_insert lt fuel (on_item f x) (map (on_item f) s) =
  rmap (map (on_item f)) (bisect_insert lt fuel x s).
Proof.
  revert s. induction fuel as [|fuel IH]; intros s; cbn [bisect_insert].
  - reflexivity.
  - rewrite split_mid_map. destruct (split_mid s) as [[[s1 m] s2]|];
      [|reflexivity]. simpl.
    destruct (lt (fst x) (fst m)) as [[|]|e]; simpl; try reflexivity;
      rewrite IH.
    + destruct (bisect_insert lt fuel x s1); simpl; [|reflexivity].
      now rewrite map_app.
    + destruct (bisect_insert lt fuel x s2); simpl; [|reflexivity].
      now rewrite map_app.
Qed.

Lemma binarysort_map (run rest : list (K * B)) :
  binarysort lt (map (on_item f) run) (map (on_item f) rest) =
  rmap (map (on_item f)) (binarysort lt run rest).
Proof.
  unfold binarysort. revert run. induction rest as [|x rest IH]; intros run;
    simpl; [reflexivity|].
  rewrite length_map, bisect_insert_map.
  destruct (bisect_insert lt (length run) x run) as [r|e]; simpl;
    [apply IH | reflexivity].
Qed.

Lemma ascending_run_map (prev : K * B) l :
  ascending_run lt (on_item f prev) (map (on_item f) l) =
  rmap (fun rr => (map (on_item f) (fst rr), map (on_item f) (snd rr)))
       (ascending_run lt prev l).
Proof.
  revert prev. induction l as [|x l IH]; intros prev; simpl; [reflexivity|].
  destruct (lt (fst x) (fst prev)) as [[|]|e]; simpl; try reflexivity.
  rewrite IH. now destruct (ascending_run lt x l).
Qed.

Lemma descending_run_map (prev : K * B) l :
  descending_run lt (on_item f prev) (map (on_item f) l) =
  rmap (fun rr => (map (on_item f) (fst rr), map (on_item f) (snd rr)))
       (descending_run lt prev l).
Proof.
  revert prev. induction l as [|x l IH]; intros prev; simpl; [reflexivity|].
  destruct (lt (fst x) (fst prev)) as [[|]|e]; simpl; try reflexivity.
  rewrite IH. now destruct (descending_run lt x l).
Qed.

Lemma count_run_map (l : list (K * B)) :
  count_run lt (map (on_item f) l) =
  rmap (fun rr => (map (on_item f) (fst rr), map (on_item f) (snd rr)))
       (count_run lt l).
Proof.
  destruct l as [|x0 [|x1 l]]; simpl; try reflexivity.
  destruct (lt (fst x1) (fst x0)) as [[|]|e]; simpl; try reflexivity.
  - rewrite descending_run_map.
    destruct (descending_run lt x1 l) as [[r t]|]; simpl; [|reflexivity].
    now rewrite !map_app, map_rev.
  - rewrite ascending_run_map.
    now destruct (ascending_run lt x1 l) as [[r t]|].
Qed.

Lemma sort_keyed_map (l : list (K * B)) :
  sort_keyed lt (map (on_item f) l) = rmap (map (on_item f)) (sort_keyed lt l).
Proof.
  unfold sort_keyed. rewrite count_run_map.
  destruct (count_run lt l) as [[run rest]|e]; simpl; [|reflexivity].
  apply binarysort_map.
Qed.
End SortedMap.

(** *** [sorted] returns when every two keys can be compared *)

Section SortedTotal.
Context {A K : Type}.
Variable lt : K -> K -> result bool.

Lemma bisect_insert_total fuel (x : K * A) (s : list (K * A)) :
  (forall y, In y s -> exists r, lt (fst x) (fst y) = Ok r) ->
  exists r, bisect_insert lt fuel x s = Ok r.
Proof.
  revert s. induction fuel as [|fuel IH]; intros s H; simpl.
  - destruct (split_mid s) as [[[? ?] ?]|]; eauto.
  - destruct (split_mid s) as [[[s1 m] s2]|] eqn:Hs; [|eauto].
    apply split_mid_Some in Hs as [-> _].
    destruct (H m) as (b & ->); [apply in_or_app; right; now left|].
    cbn [bind]. destruct b.
    + destruct (IH s1) as (r & ->); [|simpl; eauto].
      intros y Hy. apply H, in_or_app. now left.
    + destruct (IH s2) as (r & ->); [|simpl; eauto].
      intros y Hy. apply H, in_or_app. right. now right.
Qed.

Lemma binarysort_total (run rest : list (K * A)) :
  (forall u v, In u (run ++ rest) -> In v (run ++ rest) ->
     exists r, lt (fst u) (fst v) = Ok r) ->
  exists out, binarysort lt run rest = Ok out.
Proof.
  unfold binarysort. revert run. induction rest as [|x rest IH];
    intros run H; simpl; [eauto|].
  destruct (bisect_insert_total (length run) x run) as (r & Hr).
  { intros y Hy. apply H; apply in_or_app; [right; now left | now left]. }
  rewrite Hr. cbn [bind]. apply IH.
  apply bisect_insert_perm in Hr; [|reflexivity].
  assert (Hsub : forall w, In w (r ++ rest) -> In w (run ++ x :: rest)).
  { intros w Hw. apply in_app_or in Hw as [Hw|Hw].
    - apply (Permutation_in _ (Permutation_sym Hr)) in Hw.
      apply in_or_app. destruct Hw as [<-|Hw]; [right; now left | now left].
    - apply in_or_app. right. now right. }
  intros u v Hu Hv. apply H; apply Hsub; assumption.
Qed.

Lemma runs_total (prev : K * A) (l : list (K * A)) :
  (forall u v, In u (prev :: l) -> In v (prev :: l) ->
     exists r, lt (fst u) (fst v) = Ok r) ->
  (exists rr, ascending_run lt prev l = Ok rr) /\
  (exists rr, descending_run lt prev l = Ok rr).
Proof.
  revert prev. induction l as [|x l IH]; intros prev H; simpl;
    [split; eauto|].
  destruct (H x prev) as (b & ->); [right; now left | now left|].
  cbn [bind].
  destruct (IH x) as [(ra & Hra) (rd & Hrd)].
  { intros u v Hu Hv. apply H; now right. }
  rewrite Hra, Hrd. destruct b; simpl; split; eauto.
Qed.

Lemma sort_keyed_total (l : list (K * A)) :
  (forall u v, In u l -> In v l -> exists r, lt (fst u) (fst v) = Ok r) ->
  exists out, sort_keyed lt l = Ok out.
Proof.
  intros H. unfold sort_keyed.
  assert (Hc : exists rr, count_run lt l = Ok rr).
  { destruct l as [|x0 [|x1 l]]; simpl; eauto.
    destruct (H x1 x0) as (b & ->); [right; now left | now left|].
    cbn [bind].
    destruct (runs_total x1 l) as [(ra & Hra) (rd & Hrd)].
    { intros u v Hu Hv. apply H; now right. }
    rewrite Hra, Hrd. destruct b; simpl; eauto. }
  destruct Hc as ([run rest] & Hc). rewrite Hc. cbn [bind fst snd].
  apply binarysort_total. apply count_run_perm in Hc.
  intros u v Hu Hv.
  apply H; eapply Permutation_in; try (symmetry; exact Hc); assumption.
Qed.
End SortedTotal.

(** *** [sorted] and its key function *)

Section SortedBy.
Context {A K : Type}.
Variable lt : K -> K -> result bool.
Variable key : A -> result K.

Lemma with_key_Ok x kx :
  with_key key x = Ok kx <-> key x = Ok (fst kx) /\ snd kx = x.
Proof.
  unfold with_key. destruct (key x) as [k|e]; simpl.
  - destruct kx as [k' x']; simpl. split.
    + now intros [= -> ->].
    + now intros [[= ->] ->].
  - split; [discriminate | intros [? _]; discriminate].
Qed.

Lemma keyed_snd l kl : mapM (with_key key) l = Ok kl -> map snd kl = l.
Proof.
  rewrite mapM_Ok_Forall2. induction 1 as [|x kx l kl Hx _ IH]; simpl;
    [reflexivity|].
  apply with_key_Ok in Hx as [_ ->]. now rewrite IH.
Qed.



Lemma sorted_by_unfold l :
  sorted_by lt key l =
  let* keyed := mapM (with_key key) l in
  let* out := sort_keyed lt keyed in
  Ok (map snd out).
Proof. reflexivity. Qed.

Lemma sorted_by_perm l out :
  sorted_by lt key l = Ok out -> Permutation l out.
Proof.
  rewrite sorted_by_unfold. intros H. inv_bind H. inv_bind H.
  injection H as <-. rewrite <- (keyed_snd _ _ Ha).
  apply Permutation_map. now apply sort_keyed_perm in Ha0.
Qed.

(** An exception of [sorted] comes from the key function or from a
    comparison. *)
Lemma sorted_by_Err l e :
  sorted_by lt key l = Err e ->
  (exists x, In x l /\ key x = Err e) \/
  (exists a b, lt a b = Err e).
Proof.
  rewrite sorted_by_unfold. intros H.
  apply bind_Err in H as [H | (kl & _ & H)].
  - left. apply mapM_Err in H as (x & Hx & H). exists x. split; [assumption|].
    unfold with_key in H. destruct (key x); [discriminate | simpl in H; congruence].
  - right. apply bind_Err in H as [H | (? & _ & H)]; [|discriminate].
    eapply sort_keyed_Err; eauto.
Qed.

Variable good : K -> Prop.
Hypothesis lt_asym :
  forall a b, good a -> good b -> lt a b = Ok true -> lt b a = Ok false.



End SortedBy.

Section SortedByMap.
Context {A B K : Type}.
Variable lt : K -> K -> result bool.
Variable f : B -> A.

Lemma sorted_by_map (key : A -> result K) (l : list B) :
  sorted_by lt key (map f l) =
  rmap (map f) (sorted_by lt (fun x => key (f x)) l).
Proof.
  rewrite !sorted_by_unfold.
  assert (Hk : mapM (with_key key) (map f l) =
               rmap (map (on_item f)) (mapM (with_key (fun x => key (f x))) l)).
  { induction l as [|x l IH]; simpl; [reflexivity|].
    rewrite IH. unfold with_key at 1 3.
    destruct (key (f x)); simpl; [|reflexivity].
    destruct (mapM _ l); reflexivity. }
  rewrite Hk.
  destruct (mapM (with_key (fun x => key (f x))) l) as [kl|e]; simpl;
    [|reflexivity].
  rewrite sort_keyed_map.
  destruct (sort_keyed lt kl) as [out|e]; simpl; [|reflexivity].
  rewrite !map_map. reflexivity.
Qed.
End SortedByMap.

Section SortedStable.
Context {A K : Type}.
Variable lt : K -> K -> result bool.
Variable eq : K -> K -> bool.
Variable rank : A -> nat.
Variable key : A -> result K.
Variable good : K -> Prop.
Hypothesis lt_asym :
  forall a b, good a -> good b -> lt a b = Ok true -> lt b a = Ok false.
Hypothesis eq_not_lt : forall a b, eq a b = true -> lt a b = Ok false.
Hypothesis le_trans :
  forall a b c, good a -> good b -> good c ->
    lt b a = Ok false -> lt c b = Ok false -> lt c a = Ok false.
Hypothesis lt_eq_l :
  forall a b c, good a -> good b -> good c ->
    eq a b = true -> lt a c = lt b c.

End SortedStable.

(** ** The key function of the engine *)

Lemma lookup_value_Err item key rev e :
  lookup_value item key rev = Err e -> e = TypeError \/ e = KeyError key.
Proof.
  unfold lookup_value, py_getitem. destruct item as [| | | | | |d]; simpl;
    try (intros [= <-]; auto).
  destruct (dict_get key d) as [v|]; simpl;
    [destruct v; discriminate | intros [= <-]; auto].
Qed.

Lemma get_sort_value_Err policy item key rev e :
  get_sort_value policy item key rev = Err e ->
  e = TypeError \/ exists msg, e = KeyError msg.
Proof.
  unfold get_sort_value. intros H.
  apply bind_Err in H as [H | (present & _ & H)].
  - left. destruct item; simpl in H; congruence.
  - assert (Hl : lookup_value item key rev = Err e ->
                 e = TypeError \/ exists msg, e = KeyError msg).
    { intros Hl. apply lookup_value_Err in Hl as [->| ->]; eauto. }
    destruct present; simpl in H; [auto|].
    destruct (String.eqb policy "error"); [injection H as <-; eauto|].
    destruct (String.eqb policy "first"); [discriminate|].
    destruct (String.eqb policy "last"); [discriminate | auto].
Qed.




Lemma sort_key_Err policy keys rl item e :
  sort_key policy keys rl item = Err e ->
  e = TypeError \/ exists msg, e = KeyError msg.
Proof.
  unfold sort_key. intros H. apply mapM_Err in H as (kr & _ & H).
  eapply get_sort_value_Err; eauto.
Qed.

Lemma sort_key_length policy keys rl item t :
  sort_key policy keys rl item = Ok t ->
  length t = Nat.min (length keys) (length rl).
Proof.
  unfold sort_key. intros H. apply mapM_Ok_Forall2 in H.
  apply Forall2_length in H. rewrite <- H. apply length_combine.
Qed.

Lemma normalize_reverse_length rev keys rl :
  normalize_reverse rev keys = Ok rl -> length rl = length keys.
Proof.
  destruct rev as [b|l]; simpl.
  - intros [= <-]. apply repeat_length.
  - destruct (Nat.eqb_spec (length l) (length keys)); simpl;
      [now intros [= <-] | discriminate].
Qed.

Lemma normalize_reverse_Err rev keys e :
  normalize_reverse rev keys = Err e <->
  e = ValueError reverse_length_message /\
  exists l, rev = RevList l /\ length l <> length keys.
Proof.
  destruct rev as [b|l]; simpl.
  - split; [discriminate | intros (_ & l & [=] & _)].
  - destruct (Nat.eqb_spec (length l) (length keys)) as [Heq|Hne]; simpl.
    + split; [discriminate | intros (_ & l' & [= <-] & Hl); contradiction].
    + split; [intros [= <-]; eauto | now intros [-> _]].
Qed.

Lemma sort_json_data_list json_loads data keys rev policy :
  sort_json_data json_loads (VList data) keys rev policy =
  sort_json_list data keys rev policy.
Proof. reflexivity. Qed.

Lemma sort_json_list_Ok data keys rev policy out :
  sort_json_list data keys rev policy = Ok out <->
  exists rl sorted,
    normalize_reverse rev keys = Ok rl /\
    py_sorted (sort_key policy keys rl) data = Ok sorted /\
    out = VList sorted.
Proof.
  unfold sort_json_list. split.
  - intros H. inv_bind H. inv_bind H. injection H as <-. eauto.
  - intros (rl & sorted & -> & H & ->). simpl. now rewrite H.
Qed.

(** ** What the engine does with a collection *)

Lemma sort_json_data_collection json_loads data keys rev policy :
  is_collection data = true ->
  sort_json_data json_loads data keys rev policy =
  match data with
  | VDict [(key, VList _)] =>
      rmap (fun s => VDict [(key, s)])
           (sort_json_list (records_of data) keys rev policy)
  | _ => sort_json_list (records_of data) keys rev policy
  end.
Proof.
  destruct data as [| | | | |l|d]; try discriminate; intros _; [reflexivity|].
  destruct d as [|[k v] [|kv d]]; try reflexivity; destruct v; reflexivity.
Qed.

Lemma sort_json_list_Err data keys rev policy e :
  sort_json_list data keys rev policy = Err e ->
  normalize_reverse rev keys = Err e \/
  (exists rl, normalize_reverse rev keys = Ok rl) /\
  (e = TypeError \/ exists msg, e = KeyError msg).
Proof.
  unfold sort_json_list. intros H.
  apply bind_Err in H as [H | (rl & Hrl & H)]; [now left|].
  right. split; [eauto|].
  apply bind_Err in H as [H | (? & _ & H)]; [|discriminate].
  apply sorted_by_Err in H as [(x & _ & H) | (a & b & H)].
  - eapply sort_key_Err; eauto.
  - left. eapply tuple_lt_Err; eauto.
Qed.



(** ** Null values *)

Lemma as_num_neg_inf v : as_num v = Some FNegInf -> v = VFloat FNegInf.
Proof. destruct v as [|[]| | | | |]; simpl; congruence. Qed.

Lemma sort_key_head policy key rest b fl item t :
  sort_key policy (key :: rest) (b :: fl) item = Ok t ->
  exists v t', t = v :: t' /\ get_sort_value policy item key b = Ok v.
Proof.
  unfold sort_key. simpl. intros H. inv_bind H. inv_bind H.
  injection H as <-. eauto.
Qed.


Lemma get_sort_value_present policy d key rev v :
  dict_get key d = Some v -> v <> VNone ->
  get_sort_value policy (VDict d) key rev = Ok v.
Proof.
  intros H Hv. unfold get_sort_value, lookup_value. simpl. rewrite H. simpl.
  destruct v; congruence.
Qed.


(** ** Values that Python does not order *)






Lemma sorted_by_keys_Ok {A K} (lt : K -> K -> result bool)
    (key : A -> result K) l out :
  sorted_by lt key l = Ok out -> forall x, In x l -> exists k, key x = Ok k.
Proof.
  rewrite sorted_by_unfold. intros H. inv_bind H. clear H.
  apply mapM_Ok_Forall2 in Ha. induction Ha as [|y ky l kl Hy _ IH];
    intros x Hx; [destruct Hx|].
  destruct Hx as [<-|Hx]; [|auto].
  apply with_key_Ok in Hy as [Hy _]. eauto.
Qed.

(** ** Key tuples without NaN *)









(** ** Records that tie on the earlier keys *)



Section TiedSegment.
Context {A : Type}.
Variable n : nat.
Implicit Types (u w y : list value * A) (l : list (list value * A)).





End TiedSegment.




(** ** The objects of the caller *)

Section Keeps.
Variable h0 : heap.

Lemma keeps_ret {A} (a : A) (post : A -> Prop) : post a -> keeps h0 (ret a) post.
Proof. intros Hp h r h' Hsub [= <- <-]. split; [assumption|]. now intros ? [= <-]. Qed.

Lemma keeps_lift {A} (r : result A) (post : A -> Prop) :
  (forall a, r = Ok a -> post a) -> keeps h0 (lift r) post.
Proof. intros Hp h r' h' Hsub [= <- <-]. auto. Qed.

Lemma keeps_stuck {A} (post : A -> Prop) : keeps h0 stuck post.
Proof. intros h r h' _ [=]. Qed.

Lemma keeps_bind {A B} (m : M A) (k : A -> M B) P Q :
  keeps h0 m P -> (forall a, P a -> keeps h0 (k a) Q) ->
  keeps h0 (bindM m k) Q.
Proof.
  intros Hm Hk h r h' Hsub H. unfold bindM in H.
  destruct (m h) as [[[a|e] h1]|] eqn:E; [| |discriminate].
  - destruct (Hm _ _ _ Hsub E) as [Hsub1 Hp].
    exact (Hk a (Hp a eq_refl) _ _ _ Hsub1 H).
  - destruct (Hm _ _ _ Hsub E) as [Hsub1 _].
    injection H as <- <-. split; [assumption | discriminate].
Qed.

Lemma keeps_weaken {A} (m : M A) (P Q : A -> Prop) :
  keeps h0 m P -> (forall a, P a -> Q a) -> keeps h0 m Q.
Proof.
  intros Hm HPQ h r h' Hsub H. destruct (Hm _ _ _ Hsub H) as [? Hp].
  split; [assumption | auto].
Qed.

Lemma keeps_alloc o : keeps h0 (alloc o) (unused h0).
Proof.
  intros h r h' Hsub [= <- <-].
  assert (Hfresh : h !! fresh (dom h) = None)
    by (apply not_elem_of_dom, is_fresh).
  assert (Hnew : h0 !! fresh (dom h) = None)
    by (eapply lookup_weaken_None; eauto).
  split; [now apply insert_subseteq_r | now intros ? [= <-]].
Qed.

Lemma keeps_read l : keeps h0 (read l) any.
Proof.
  intros h r h' Hsub H. unfold read in H.
  destruct (h !! l); [|discriminate]. injection H as <- <-.
  split; [assumption | now intros].
Qed.

Lemma keeps_write l o : unused h0 l -> keeps h0 (write l o) any.
Proof.
  intros Hl h r h' Hsub H. unfold write in H.
  destruct (h !! l); [|discriminate]. injection H as <- <-.
  split; [now apply insert_subseteq_r | now intros].
Qed.

Lemma keeps_for_each {A} (f : A -> M unit) l :
  (forall x, keeps h0 (f x) any) -> keeps h0 (for_each f l) any.
Proof.
  intros Hf. induction l as [|x l IH]; simpl.
  - now apply keeps_ret.
  - eapply keeps_bind; [apply Hf | intros; apply IH].
Qed.

Lemma keeps_mapMM {A B} (f : A -> M B) l (post : B -> Prop) :
  (forall x, keeps h0 (f x) post) -> keeps h0 (mapMM f l) (Forall post).
Proof.
  intros Hf. induction l as [|x l IH]; simpl.
  - apply keeps_ret. constructor.
  - eapply keeps_bind; [apply Hf|]. intros y Hy.
    eapply keeps_bind; [apply IH|]. intros ys Hys.
    apply keeps_ret. now constructor.
Qed.

Lemma keeps_read_list l : keeps h0 (read_list l) any.
Proof.
  eapply keeps_bind; [apply keeps_read|]. intros [ls|v] _;
    [now apply keeps_ret | apply keeps_stuck].
Qed.

Lemma keeps_read_item l : keeps h0 (read_item l) any.
Proof.
  eapply keeps_bind; [apply keeps_read|]. intros [ls|v] _;
    [apply keeps_stuck | now apply keeps_ret].
Qed.

Lemma keeps_copy item : keeps h0 (copy_h item) (unused h0).
Proof.
  eapply keeps_bind; [apply keeps_read_item|]. intros v _.
  eapply keeps_bind; [apply keeps_lift with (post := any); now intros|].
  intros c _. apply keeps_alloc.
Qed.

Lemma keeps_setitem l key v : unused h0 l -> keeps h0 (setitem_h l key v) any.
Proof.
  intros Hl. eapply keeps_bind; [apply keeps_read_item|]. intros old _.
  eapply keeps_bind; [apply keeps_lift with (post := any); now intros|].
  intros new _. now apply keeps_write.
Qed.

Lemma keeps_append lst x : unused h0 lst -> keeps h0 (append_h lst x) any.
Proof.
  intros Hl. eapply keeps_bind; [apply keeps_read_list|]. intros ls _.
  now apply keeps_write.
Qed.

Lemma keeps_flatten_key item flat_item key_path :
  unused h0 flat_item -> keeps h0 (flatten_key_h item flat_item key_path) any.
Proof.
  intros Hl. unfold flatten_key_h. destruct (contains_dot key_path);
    [|now apply keeps_ret].
  eapply keeps_bind; [apply keeps_read_item|]. intros v _.
  destruct (get_nested_value v key_path) as [x|[]];
    try (now apply keeps_setitem); apply keeps_lift; discriminate.
Qed.

(** The flattened fields go to objects the caller does not have. *)
Lemma keeps_prepare data sort_keys :
  keeps h0 (prepare_data_with_nested_keys_h data sort_keys) (unused h0).
Proof.
  eapply keeps_bind; [apply keeps_alloc|]. intros prepared_data Hp.
  eapply keeps_bind; [apply keeps_read_list|]. intros items _.
  eapply keeps_bind; [|intros; now apply keeps_ret].
  apply keeps_for_each. intros item.
  eapply keeps_bind; [apply keeps_copy|]. intros flat_item Hf.
  eapply keeps_bind; [|intros; now apply keeps_append].
  apply keeps_for_each. intros key_path. now apply keeps_flatten_key.
Qed.

Lemma keeps_sort_json_list data sort_keys reverse policy :
  keeps h0 (sort_json_list_h data sort_keys reverse policy) (unused h0).
Proof.
  eapply keeps_bind; [apply keeps_lift with (post := any); now intros|].
  intros rl _. eapply keeps_bind; [apply keeps_read_list|]. intros items _.
  eapply keeps_bind; [apply keeps_mapMM, keeps_read_item|]. intros values _.
  eapply keeps_bind; [apply keeps_lift with (post := any); now intros|].
  intros sorted_data _. apply keeps_alloc.
Qed.

Lemma keeps_alloc_value v : keeps h0 (alloc_value v) (unused h0).
Proof.
  destruct v; try apply keeps_alloc. simpl.
  eapply keeps_bind; [apply keeps_mapMM; intros; apply keeps_alloc|].
  intros items _. apply keeps_alloc.
Qed.

Lemma keeps_restore sorted_data keys :
  keeps h0 (restore_data_h sorted_data keys) (unused h0).
Proof.
  eapply keeps_bind; [apply keeps_alloc|]. intros restored_data Hr.
  eapply keeps_bind; [apply keeps_read_list|]. intros items _.
  eapply keeps_bind; [|intros; now apply keeps_ret].
  apply keeps_for_each. intros item.
  eapply keeps_bind with (P := any); [|intros; now apply keeps_append].
  eapply keeps_bind; [apply keeps_read_item|]. intros v _.
  eapply keeps_bind; [apply keeps_lift with (post := any); now intros|].
  intros original_item _.
  eapply keeps_weaken; [apply keeps_alloc | now intros].
Qed.

Variable json_loads : string -> result value.

(** [sort_json_data] returns an object the caller does not have, unless
    [data] is a scalar, which it returns as it is. *)
Lemma keeps_sort_json_data data sort_keys reverse policy :
  keeps h0 (sort_json_data_h json_loads data sort_keys reverse policy)
    (fun out => unused h0 out \/ out = data).
Proof.
  pose proof (keeps_sort_json_list) as Hlist.
  assert (Hl : forall d,
            keeps h0 (sort_json_list_h d sort_keys reverse policy)
              (fun out => unused h0 out \/ out = data)).
  { intros d. eapply keeps_weaken; [apply Hlist | now left]. }
  assert (Hwrap :
            keeps h0
              (do* wrapped := alloc (OList [data]) in
               sort_json_list_h wrapped sort_keys reverse policy)
              (fun out => unused h0 out \/ out = data)).
  { eapply keeps_bind; [apply keeps_alloc|]. intros; apply Hl. }
  eapply keeps_bind; [apply keeps_read|]. intros o _.
  destruct o as [ls|v]; [apply Hl|].
  destruct v as [| | | |s|l|d]; try (apply keeps_ret; now right).
  - eapply keeps_bind; [apply keeps_lift with (post := any); now intros|].
    intros v _. eapply keeps_bind; [apply keeps_alloc_value|].
    intros decoded Hd. destruct v; try (apply keeps_ret; now left). apply Hl.
  - apply keeps_stuck.
  - destruct d as [|[k v] d]; try exact Hwrap.
    destruct v; try exact Hwrap; destruct d; try exact Hwrap.
    eapply keeps_bind; [apply keeps_lift with (post := any); now intros|].
    intros sorted_list _. eapply keeps_weaken; [apply keeps_alloc | now left].
Qed.

Lemma keeps_main data keys reverse missing_key :
  keeps h0 (main_sorted_data_h json_loads data keys reverse missing_key) any.
Proof.
  eapply keeps_bind; [apply keeps_read|]. intros o _. cbv zeta.
  eapply keeps_bind with (P := any).
  { destruct (_ && _);
      [eapply keeps_weaken; [apply keeps_prepare | intros; exact I]
      | now apply keeps_ret]. }
  intros data_to_sort _.
  eapply keeps_bind; [apply keeps_lift with (post := any); now intros|].
  intros reverse_arg _.
  eapply keeps_bind;
    [eapply keeps_weaken; [apply keeps_sort_json_data | intros; exact I]|].
  intros sorted_data _. eapply keeps_bind; [apply keeps_read|]. intros so _.
  eapply keeps_bind with (P := any).
  { destruct so; [|now apply keeps_ret].
    destruct (_ && _);
      [eapply keeps_weaken; [apply keeps_restore | intros; exact I]
      | now apply keeps_ret]. }
  intros sorted_data' _. eapply keeps_bind; [apply keeps_read|].
  intros so' _.
  destruct so' as [[|x [|y ls]]|v]; try (now apply keeps_ret).
  destruct o as [|[]]; now apply keeps_ret.
Qed.
End Keeps.

(** ** The run on the store computes what the engine computes *)

Lemma bindM_Ok {A B} (m : M A) (k : A -> M B) h a h1 :
  m h = Some (Ok a, h1) -> bindM m k h = k a h1.
Proof. unfold bindM. now intros ->. Qed.

Lemma bindM_Err {A B} (m : M A) (k : A -> M B) h e h1 :
  m h = Some (Err e, h1) -> bindM m k h = Some (Err e, h1).
Proof. unfold bindM. now intros ->. Qed.

Lemma for_each_ext {A} (f g : A -> M unit) l h :
  (forall x h, f x h = g x h) -> for_each f l h = for_each g l h.
Proof.
  intros Hfg. revert h; induction l as [|x l IH]; intros h; simpl;
    [reflexivity|].
  unfold bindM. rewrite Hfg. destruct (g x h) as [[[u|e] h1]|]; auto.
Qed.

Lemma items_at_Forall2 h ls vs :
  items_at h ls = Some vs <-> Forall2 (item_is h) ls vs.
Proof.
  revert vs; induction ls as [|l ls IH]; intros vs; simpl.
  - split; [intros [= <-]; constructor | intros H; now inversion H].
  - unfold item_at, item_is. split.
    + destruct (h !! l) as [[|v]|] eqn:E; try discriminate.
      destruct (items_at h ls) as [vs'|]; [|discriminate].
      intros [= <-]. constructor; [assumption | now apply IH].
    + intros H. inversion H as [|? v ? vs' Hl Hls]; subst.
      unfold item_is in Hl. rewrite Hl. apply IH in Hls. now rewrite Hls.
Qed.

Lemma item_is_weaken h h' ls vs :
  h ⊆ h' -> Forall2 (item_is h) ls vs -> Forall2 (item_is h') ls vs.
Proof.
  intros Hsub H. eapply Forall2_impl; [exact H|].
  intros l v Hl. eapply lookup_weaken; eauto.
Qed.

Lemma holds_weaken h h' l v : h ⊆ h' -> holds h l v -> holds h' l v.
Proof.
  unfold holds. intros Hsub H.
  destruct (h !! l) as [o|] eqn:E; [|contradiction].
  rewrite (lookup_weaken _ _ _ _ E Hsub).
  destruct o as [ls|x]; [|assumption].
  destruct H as (vs & Hvs & ->). exists vs. split; [|reflexivity].
  apply items_at_Forall2. apply items_at_Forall2 in Hvs.
  eapply item_is_weaken; eauto.
Qed.

Lemma alloc_run o h :
  alloc o h = Some (Ok (fresh (dom h)), <[fresh (dom h) := o]> h) /\
  h !! fresh (dom h) = None.
Proof. split; [reflexivity | apply not_elem_of_dom, is_fresh]. Qed.

Lemma read_item_run h l v : item_is h l v -> read_item l h = Some (Ok v, h).
Proof. unfold read_item, bindM, read, item_is. now intros ->. Qed.

Lemma read_list_run h l ls :
  h !! l = Some (OList ls) -> read_list l h = Some (Ok ls, h).
Proof. unfold read_list, bindM, read. now intros ->. Qed.

Lemma read_items_run h ls vs :
  Forall2 (item_is h) ls vs -> mapMM read_item ls h = Some (Ok vs, h).
Proof.
  induction 1 as [|l v ls vs Hl _ IH]; simpl; [reflexivity|].
  rewrite (bindM_Ok _ _ _ _ _ (read_item_run _ _ _ Hl)).
  rewrite (bindM_Ok _ _ _ _ _ IH). reflexivity.
Qed.

(** The inner loop of [prepare_data_with_nested_keys] writes to the copy
    only, and leaves in it what the pure loop computes. *)
Lemma flatten_keys_run item flat_item v keys :
  item <> flat_item ->
  forall c h,
    item_is h item v -> item_is h flat_item c ->
    exists r c',
      for_each (flatten_key_h item flat_item) keys h
      = Some (r, <[flat_item := OItem c']> h) /\
      match r with
      | Ok _ => foldM (flatten_key v) keys c = Ok c'
      | Err e => foldM (flatten_key v) keys c = Err e
      end.
Proof.
  intros Hne. induction keys as [|key keys IH]; intros c h Hitem Hflat.
  - exists (Ok tt), c. simpl. split; [|reflexivity].
    unfold ret. now rewrite insert_id.
  - assert (Hstop : forall e,
              flatten_key v c key = Err e ->
              flatten_key_h item flat_item key h = Some (Err e, h) ->
              exists r c',
                for_each (flatten_key_h item flat_item) (key :: keys) h
                = Some (r, <[flat_item := OItem c']> h) /\
                match r with
                | Ok _ => foldM (flatten_key v) (key :: keys) c = Ok c'
                | Err e => foldM (flatten_key v) (key :: keys) c = Err e
                end).
    { intros e Hp Hr. exists (Err e), c. simpl.
      rewrite (bindM_Err _ _ _ _ _ Hr), Hp, insert_id by assumption. auto. }
    assert (Hgo : forall c1 h1,
              flatten_key v c key = Ok c1 ->
              flatten_key_h item flat_item key h = Some (Ok tt, h1) ->
              h1 = <[flat_item := OItem c1]> h ->
              exists r c',
                for_each (flatten_key_h item flat_item) (key :: keys) h
                = Some (r, <[flat_item := OItem c']> h) /\
                match r with
                | Ok _ => foldM (flatten_key v) (key :: keys) c = Ok c'
                | Err e => foldM (flatten_key v) (key :: keys) c = Err e
                end).
    { intros c1 h1 Hp Hr ->.
      destruct (IH c1 (<[flat_item := OItem c1]> h)) as (r & c' & Hrun & Hres).
      - unfold item_is. now rewrite lookup_insert_ne.
      - unfold item_is. now rewrite lookup_insert_eq.
      - exists r, c'. simpl. rewrite (bindM_Ok _ _ _ _ _ Hr), Hrun, Hp.
        rewrite insert_insert_eq. auto. }
    assert (Hset : forall x,
              (flatten_key v c key = py_setitem c key x) ->
              flatten_key_h item flat_item key h
              = setitem_h flat_item key x h ->
              exists r c',
                for_each (flatten_key_h item flat_item) (key :: keys) h
                = Some (r, <[flat_item := OItem c']> h) /\
                match r with
                | Ok _ => foldM (flatten_key v) (key :: keys) c = Ok c'
                | Err e => foldM (flatten_key v) (key :: keys) c = Err e
                end).
    { intros x Hp Hr. unfold setitem_h in Hr.
      rewrite (bindM_Ok _ _ _ _ _ (read_item_run _ _ _ Hflat)) in Hr.
      destruct (py_setitem c key x) as [new|e] eqn:Hs.
      - apply (Hgo new (<[flat_item := OItem new]> h)); [assumption | | reflexivity].
        rewrite Hr. unfold bindM, lift, write.
        unfold item_is in Hflat. now rewrite Hflat.
      - apply (Hstop e); [assumption|].
        rewrite Hr. reflexivity. }
    unfold flatten_key, flatten_key_h in *.
    destruct (contains_dot key).
    + rewrite (bindM_Ok _ _ _ _ _ (read_item_run _ _ _ Hitem)) in *.
      destruct (get_nested_value v key) as [x|[]];
        try (apply (Hstop _ eq_refl eq_refl));
        [apply (Hset x) | apply (Hset VNone)]; reflexivity.
    + apply (Hgo c h); [reflexivity | reflexivity |].
      now rewrite insert_id.
Qed.

(** The loop "for each item, make a new item and append it to [lst]". *)
Lemma append_loop_run (f : loc -> M loc) fp lst :
  makes_item f fp ->
  forall items vs h acc accv,
    Forall2 (item_is h) items vs ->
    h !! lst = Some (OList acc) ->
    Forall2 (item_is h) acc accv ->
    exists r h',
      for_each (fun item => do* y := f item in append_h lst y) items h
      = Some (r, h') /\
      match r with
      | Ok _ =>
          exists acc' ps,
            h' !! lst = Some (OList acc') /\
            Forall2 (item_is h') acc' (accv ++ ps) /\
            mapM fp vs = Ok ps
      | Err e => mapM fp vs = Err e
      end.
Proof.
  intros Hf items. induction items as [|item items IH];
    intros vs h acc accv Hitems Hlst Hacc;
    inversion Hitems as [|? v ? vs' Hitem Hitems']; subst.
  - exists (Ok tt), h. split; [reflexivity|].
    exists acc, []. rewrite app_nil_r. auto.
  - destruct (Hf h item v Hitem) as (r & h1 & Hrun & Hsub & Hres). simpl.
    destruct r as [l'|e].
    + destruct Hres as (Hnew & v' & Hl' & Hfp).
      pose proof (lookup_weaken _ _ _ _ Hlst Hsub) as Hlst1.
      set (h2 := <[lst := OList (acc ++ [l'])]> h1).
      assert (Hstep : (do* y := f item in append_h lst y) h = Some (Ok tt, h2)).
      { rewrite (bindM_Ok _ _ _ _ _ Hrun). unfold append_h.
        rewrite (bindM_Ok _ _ _ _ _ (read_list_run _ _ _ Hlst1)).
        unfold write. now rewrite Hlst1. }
      assert (Hext : forall ls ws,
                Forall2 (item_is h1) ls ws -> Forall2 (item_is h2) ls ws).
      { intros ls ws H. eapply Forall2_impl; [exact H|].
        intros l w Hl. unfold item_is, h2 in *. rewrite lookup_insert_ne;
          [assumption | congruence]. }
      destruct (IH vs' h2 (acc ++ [l']) (accv ++ [v'])) as (r & h' & Hloop & Hr).
      * apply Hext. eapply item_is_weaken; eauto.
      * unfold h2. now rewrite lookup_insert_eq.
      * apply Forall2_app; apply Hext;
          [eapply item_is_weaken; eauto | repeat constructor; assumption].
      * exists r, h'. rewrite (bindM_Ok _ _ _ _ _ Hstep). split; [assumption|].
        rewrite Hfp. simpl. destruct r as [u|e].
        -- destruct Hr as (acc' & ps & Hl & Hall & Hps).
           exists acc', (v' :: ps). rewrite Hps. simpl.
           rewrite <- app_assoc in Hall. auto.
        -- now rewrite Hr.
    + exists (Err e), h1. rewrite (bindM_Err _ _ _ _ _ (bindM_Err _ _ _ _ _ Hrun)).
      split; [reflexivity|]. now rewrite Hres.
Qed.

Lemma prepare_item_makes sort_keys :
  makes_item (prepare_item_h sort_keys) (prepare_item sort_keys).
Proof.
  intros h item v Hitem. unfold prepare_item_h, prepare_item.
  assert (Hcopy : copy_h item h
                  = (do* c := lift (py_copy v) in alloc (OItem c)) h).
  { unfold copy_h. now rewrite (bindM_Ok _ _ _ _ _ (read_item_run _ _ _ Hitem)). }
  unfold bindM at 1. rewrite Hcopy. unfold bindM at 1, lift.
  destruct (py_copy v) as [c|e] eqn:Hc.
  - destruct (alloc_run (OItem c) h) as [Ha Hfresh].
    set (l := fresh (dom h)) in *.
    assert (Hne : item <> l) by (unfold item_is in Hitem; congruence).
    destruct (flatten_keys_run item l v sort_keys Hne c (<[l := OItem c]> h))
      as (r & c' & Hrun & Hres).
    { unfold item_is. now rewrite lookup_insert_ne. }
    { unfold item_is. now rewrite lookup_insert_eq. }
    rewrite insert_insert_eq in Hrun.
    exists (match r with Ok _ => Ok l | Err e => Err e end),
           (<[l := OItem c']> h).
    split; [|split; [now apply insert_subseteq|]].
    + rewrite Ha. unfold bindM. rewrite Hrun. now destruct r.
    + simpl. destruct r as [u|e]; [|assumption].
      split; [assumption|]. exists c'. split; [|assumption].
      unfold item_is. now rewrite lookup_insert_eq.
  - exists (Err e), h. split; [reflexivity | split; [reflexivity|]].
    reflexivity.
Qed.

Lemma restore_item_makes keys :
  makes_item (restore_item_h keys) (restore_item keys).
Proof.
  intros h item v Hitem. unfold restore_item_h.
  rewrite (bindM_Ok _ _ _ _ _ (read_item_run _ _ _ Hitem)).
  destruct (restore_item keys v) as [c|e] eqn:Hc.
  - destruct (alloc_run (OItem c) h) as [Ha Hfresh].
    exists (Ok (fresh (dom h))), (<[fresh (dom h) := OItem c]> h).
    split; [exact Ha | split; [now apply insert_subseteq|]].
    split; [assumption|]. exists c. split; [|reflexivity].
    unfold item_is. now rewrite lookup_insert_eq.
  - exists (Err e), h. split; [reflexivity | split; reflexivity].
Qed.

(** A new list, filled by the loop. *)
Lemma new_list_run (f : loc -> M loc) fp (body : loc -> loc -> M unit) data :
  makes_item f fp ->
  (forall lst item h,
     body lst item h = (do* y := f item in append_h lst y) h) ->
  forall h ls vs,
    h !! data = Some (OList ls) -> Forall2 (item_is h) ls vs ->
    exists r h',
      (do* lst := alloc (OList []) in
       do* items := read_list data in
       do* _u := for_each (body lst) items in
       ret lst) h = Some (r, h') /\
      match r with
      | Ok out =>
          exists ls' ps,
            h' !! out = Some (OList ls') /\ Forall2 (item_is h') ls' ps /\
            mapM fp vs = Ok ps
      | Err e => mapM fp vs = Err e
      end.
Proof.
  intros Hf Hbody h ls vs Hdata Hls.
  destruct (alloc_run (OList []) h) as [Ha Hfresh].
  set (lst := fresh (dom h)) in *.
  remember (<[lst := OList []]> h) as h1 eqn:Hh1.
  assert (Hsub : h ⊆ h1) by (subst h1; now apply insert_subseteq).
  destruct (append_loop_run f fp lst Hf ls vs h1 [] [])
    as (r & h' & Hloop & Hr).
  { eapply item_is_weaken; eauto. }
  { subst h1. now rewrite lookup_insert_eq. }
  { constructor. }
  exists (match r with Ok _ => Ok lst | Err e => Err e end), h'.
  split.
  - rewrite (bindM_Ok _ _ _ _ _ Ha).
    rewrite (bindM_Ok _ _ _ _ _
               (read_list_run _ _ _ (lookup_weaken _ _ _ _ Hdata Hsub))).
    unfold bindM at 1.
    rewrite (for_each_ext (body lst)
               (fun item => do* y := f item in append_h lst y)
               _ _ (Hbody lst)).
    rewrite Hloop. now destruct r.
  - destruct r as [u|e]; [|assumption]. exact Hr.
Qed.

Lemma prepare_run data sort_keys h ls vs :
  h !! data = Some (OList ls) -> Forall2 (item_is h) ls vs ->
  exists r h',
    prepare_data_with_nested_keys_h data sort_keys h = Some (r, h') /\
    match r with
    | Ok out =>
        exists ls' ps,
          h' !! out = Some (OList ls') /\ Forall2 (item_is h') ls' ps /\
          prepare_data_with_nested_keys vs sort_keys = Ok ps
    | Err e => prepare_data_with_nested_keys vs sort_keys = Err e
    end.
Proof.
  apply (new_list_run (prepare_item_h sort_keys) (prepare_item sort_keys)
           (fun lst item =>
              do* flat_item := copy_h item in
              do* _u := for_each (flatten_key_h item flat_item) sort_keys in
              append_h lst flat_item));
    [apply prepare_item_makes|].
  intros lst item h0. unfold prepare_item_h, bindM.
  destruct (copy_h item h0) as [[[l|e] h1]|]; try reflexivity.
  destruct (for_each _ sort_keys h1) as [[[u|e] h2]|]; reflexivity.
Qed.

Lemma restore_run sorted_data keys h ls vs :
  h !! sorted_data = Some (OList ls) -> Forall2 (item_is h) ls vs ->
  exists r h',
    restore_data_h sorted_data keys h = Some (r, h') /\
    match r with
    | Ok out =>
        exists ls' ps,
          h' !! out = Some (OList ls') /\ Forall2 (item_is h') ls' ps /\
          mapM (restore_item keys) vs = Ok ps
    | Err e => mapM (restore_item keys) vs = Err e
    end.
Proof.
  apply (new_list_run (restore_item_h keys) (restore_item keys)
           (fun lst item =>
              do* original_item := restore_item_h keys item in
              append_h lst original_item));
    [apply restore_item_makes | reflexivity].
Qed.

Lemma combine_items h ls vs :
  Forall2 (item_is h) ls vs ->
  map snd (combine ls vs) = vs /\
  Forall (fun p => item_is h (fst p) (snd p)) (combine ls vs).
Proof.
  induction 1 as [|l v ls vs Hl _ [IH1 IH2]]; simpl;
    [split; [reflexivity | constructor]|].
  rewrite IH1. split; [reflexivity | now constructor].
Qed.

Lemma sort_json_list_run data keys reverse policy h ls vs :
  h !! data = Some (OList ls) -> Forall2 (item_is h) ls vs ->
  exists r h',
    sort_json_list_h data keys reverse policy h = Some (r, h') /\
    match r with
    | Ok out =>
        exists ls' sorted,
          h' !! out = Some (OList ls') /\ Forall2 (item_is h') ls' sorted /\
          sort_json_list vs keys reverse policy = Ok (VList sorted)
    | Err e => sort_json_list vs keys reverse policy = Err e
    end.
Proof.
  intros Hdata Hls. unfold sort_json_list_h, sort_json_list.
  destruct (normalize_reverse reverse keys) as [rl|e]; simpl;
    [|exists (Err e), h; split; reflexivity].
  rewrite (bindM_Ok (lift (Ok rl)) _ h rl h eq_refl).
  rewrite (bindM_Ok _ _ _ _ _ (read_list_run _ _ _ Hdata)).
  rewrite (bindM_Ok _ _ _ _ _ (read_items_run _ _ _ Hls)).
  destruct (combine_items _ _ _ Hls) as [Hsnd Hall].
  unfold py_sorted.
  assert (Hpure : sorted_by tuple_lt (sort_key policy keys rl) vs
                  = rmap (map snd)
                      (sorted_by tuple_lt
                         (fun x => sort_key policy keys rl (snd x))
                         (combine ls vs))).
  { rewrite <- Hsnd at 1. apply sorted_by_map. }
  rewrite Hpure. clear Hpure.
  destruct (sorted_by tuple_lt (fun x => sort_key policy keys rl (snd x))
              (combine ls vs)) as [sp|e] eqn:Hs; simpl;
    [|exists (Err e), h; split; [|reflexivity];
      unfold bindM, lift; reflexivity].
  destruct (alloc_run (OList (map fst sp)) h) as [Ha Hfresh].
  eexists (Ok _), _. split.
  { unfold bindM at 1. unfold lift. exact Ha. }
  exists (map fst sp), (map snd sp). rewrite lookup_insert_eq.
  split; [reflexivity | split; [|reflexivity]].
  apply sorted_by_perm in Hs.
  eapply Permutation_Forall in Hall; [|exact Hs].
  generalize (OList (map fst sp)). intros o.
  clear -Hall Hfresh. induction Hall as [|p sp Hp _ IH]; simpl; constructor;
    [|exact IH].
  unfold item_is in *. rewrite lookup_insert_ne; [assumption | congruence].
Qed.

Lemma holds_list h l ls vs :
  h !! l = Some (OList ls) -> Forall2 (item_is h) ls vs -> holds h l (VList vs).
Proof.
  intros Hl Hls. unfold holds. rewrite Hl. exists vs.
  split; [now apply items_at_Forall2 | reflexivity].
Qed.

Lemma holds_list_inv h l vs :
  holds h l (VList vs) ->
  exists ls, h !! l = Some (OList ls) /\ Forall2 (item_is h) ls vs.
Proof.
  unfold holds. destruct (h !! l) as [[ls|x]|]; [| |contradiction].
  - intros (vs' & Hvs & [= ->]). exists ls. split; [reflexivity|].
    now apply items_at_Forall2.
  - intros [_ Hn]. now contradiction (Hn vs).
Qed.

Lemma holds_item h l v :
  h !! l = Some (OItem v) -> (forall vs, v <> VList vs) -> holds h l v.
Proof. intros Hl Hv. unfold holds. rewrite Hl. auto. Qed.

Lemma alloc_items_run l h :
  exists ls h',
    mapMM (fun x => alloc (OItem x)) l h = Some (Ok ls, h') /\
    h ⊆ h' /\ Forall2 (item_is h') ls l.
Proof.
  revert h; induction l as [|x l IH]; intros h; simpl.
  - exists [], h. repeat split; [reflexivity | constructor].
  - destruct (alloc_run (OItem x) h) as [Ha Hfresh].
    destruct (IH (<[fresh (dom h) := OItem x]> h)) as (ls & h' & Hrun & Hsub & Hls).
    exists (fresh (dom h) :: ls), h'.
    rewrite (bindM_Ok _ _ _ _ _ Ha), (bindM_Ok _ _ _ _ _ Hrun).
    split; [reflexivity|]. split.
    + etransitivity; [|exact Hsub]. now apply insert_subseteq.
    + constructor; [|assumption]. unfold item_is.
      eapply lookup_weaken; [|exact Hsub]. now rewrite lookup_insert_eq.
Qed.

Lemma alloc_value_run v h :
  exists out h',
    alloc_value v h = Some (Ok out, h') /\ h ⊆ h' /\ holds h' out v.
Proof.
  assert (Hitem : (forall vs, v <> VList vs) ->
            exists out h',
              alloc (OItem v) h = Some (Ok out, h') /\ h ⊆ h' /\
              holds h' out v).
  { intros Hv. destruct (alloc_run (OItem v) h) as [Ha Hfresh].
    eexists _, _. split; [exact Ha|]. split; [now apply insert_subseteq|].
    apply holds_item; [now rewrite lookup_insert_eq | assumption]. }
  destruct v as [| | | | |l|]; try (apply Hitem; discriminate). simpl.
  destruct (alloc_items_run l h) as (ls & h1 & Hrun & Hsub & Hls).
  destruct (alloc_run (OList ls) h1) as [Ha Hfresh].
  eexists _, _. rewrite (bindM_Ok _ _ _ _ _ Hrun). split; [exact Ha|].
  assert (Hsub1 : h1 ⊆ <[fresh (dom h1) := OList ls]> h1)
    by now apply insert_subseteq.
  split; [etransitivity; eauto|].
  eapply holds_list; [now rewrite lookup_insert_eq|].
  eapply item_is_weaken; eauto.
Qed.

Section RunAgrees.
Variable json_loads : string -> result value.

Lemma sort_json_list_agrees data keys reverse policy h ls vs :
  h !! data = Some (OList ls) -> Forall2 (item_is h) ls vs ->
  agrees (sort_json_list_h data keys reverse policy h)
         (sort_json_list vs keys reverse policy).
Proof.
  intros Hdata Hls.
  destruct (sort_json_list_run data keys reverse policy h ls vs Hdata Hls)
    as (r & h' & Hrun & Hr).
  exists r, h'. split; [assumption|]. destruct r as [out|e]; [|assumption].
  destruct Hr as (ls' & sorted & Hout & Hitems & Hpure).
  exists (VList sorted). split; [assumption|]. eapply holds_list; eauto.
Qed.

Lemma sort_json_data_agrees data v keys reverse policy h :
  holds h data v ->
  agrees (sort_json_data_h json_loads data keys reverse policy h)
         (sort_json_data json_loads v keys reverse policy).
Proof.
  intros Hholds. unfold sort_json_data_h.
  pose proof Hholds as Hh. unfold holds in Hh.
  destruct (h !! data) as [[ls|x]|] eqn:Hdata; [| |contradiction].
  - destruct Hh as (vs & Hvs & ->). apply items_at_Forall2 in Hvs.
    rewrite (bindM_Ok (read data) _ h (OList ls) h)
      by (unfold read; now rewrite Hdata).
    rewrite sort_json_data_list. now apply sort_json_list_agrees with (ls := ls).
  - destruct Hh as [-> Hnl].
    rewrite (bindM_Ok (read data) _ h (OItem v) h)
      by (unfold read; now rewrite Hdata).
    assert (Hscalar : sort_json_data json_loads v keys reverse policy = Ok v ->
              agrees (ret data h) (sort_json_data json_loads v keys reverse policy)).
    { intros ->. exists (Ok data), h. split; [reflexivity|]. eauto. }
    assert (Hwrap : forall d, v = VDict d ->
              sort_json_data json_loads v keys reverse policy
              = sort_json_list [v] keys reverse policy ->
              agrees ((do* wrapped := alloc (OList [data]) in
                       sort_json_list_h wrapped keys reverse policy) h)
                     (sort_json_data json_loads v keys reverse policy)).
    { intros d -> ->. destruct (alloc_run (OList [data]) h) as [Ha Hfresh].
      rewrite (bindM_Ok _ _ _ _ _ Ha).
      apply sort_json_list_agrees with (ls := [data]);
        [now rewrite lookup_insert_eq|].
      repeat constructor. unfold item_is.
      rewrite lookup_insert_ne; [assumption | congruence]. }
    destruct v as [| | | |s|l|d]; try (now apply Hscalar).
    + (* a JSON text *)
      change (sort_json_data json_loads (VStr s) keys reverse policy)
        with (let* data := json_loads s in
              match data with
              | VList l => sort_json_list l keys reverse policy
              | _ => Ok data
              end).
      destruct (json_loads s) as [v0|e] eqn:Hjs;
        [|exists (Err e), h; split; reflexivity].
      rewrite (bindM_Ok (lift (Ok v0)) _ h v0 h eq_refl).
      destruct (alloc_value_run v0 h) as (decoded & h1 & Hrun & Hsub & Hdec).
      rewrite (bindM_Ok _ _ _ _ _ Hrun). simpl.
      assert (Hret : (forall vs, v0 <> VList vs) ->
                agrees (ret decoded h1) (Ok v0)).
      { intros _. exists (Ok decoded), h1. split; [reflexivity|]. eauto. }
      destruct v0 as [| | | | |l0|]; try (apply Hret; discriminate).
      apply holds_list_inv in Hdec as (ls0 & Hl0 & Hitems).
      now apply sort_json_list_agrees with (ls := ls0).
    + now contradiction (Hnl l).
    + (* a dict *)
      destruct d as [|[k v] d]; try (now apply (Hwrap _ eq_refl)).
      destruct v; try (now apply (Hwrap _ eq_refl));
        destruct d; try (now apply (Hwrap _ eq_refl)).
      change (sort_json_data json_loads (VDict [(k, VList l)]) keys reverse policy)
        with (let* s := sort_json_list l keys reverse policy in
              Ok (VDict [(k, s)])).
      destruct (sort_json_list l keys reverse policy) as [sl|e] eqn:Hs;
        [|exists (Err e), h; split; reflexivity].
      rewrite (bindM_Ok (lift (Ok sl)) _ h sl h eq_refl).
      destruct (alloc_run (OItem (VDict [(k, sl)])) h) as [Ha Hfresh].
      eexists (Ok _), _. split; [exact Ha|]. eexists. split; [reflexivity|].
      apply holds_item; [now rewrite lookup_insert_eq | discriminate].
Qed.
End RunAgrees.

Lemma sort_json_data_of_list json_loads vs keys reverse policy out :
  sort_json_data json_loads (VList vs) keys reverse policy = Ok out ->
  exists sorted, out = VList sorted.
Proof.
  rewrite sort_json_data_list. intros H.
  apply sort_json_list_Ok in H as (? & sorted & _ & _ & ->). eauto.
Qed.

Lemma sort_json_data_of_dict json_loads d keys reverse policy x :
  sort_json_data json_loads (VDict d) keys reverse policy = Ok (VList [x]) ->
  x = VDict d.
Proof.
  rewrite sort_json_data_collection by reflexivity.
  assert (Hone : sort_json_list [VDict d] keys reverse policy = Ok (VList [x]) ->
                 x = VDict d).
  { intros H. apply sort_json_list_Ok in H as (? & sorted & _ & Hs & [= <-]).
    apply sorted_by_perm in Hs. apply Permutation_length_1 in Hs. congruence. }
  destruct d as [|[k v] d]; try exact Hone.
  destruct v; try exact Hone; destruct d; try exact Hone.
  unfold rmap. intros H. inv_bind H. discriminate.
Qed.

Section MainAgrees.
Variable json_loads : string -> result value.

Lemma main_agrees data v keys reverse policy h :
  holds h data v ->
  agrees (main_sorted_data_h json_loads data keys reverse policy h)
         (main_sorted_data json_loads v keys reverse policy).
Proof.
  intros Hholds. unfold main_sorted_data_h, main_sorted_data.
  pose proof Hholds as Hh. unfold holds in Hh.
  destruct (h !! data) as [[ls|x]|] eqn:Hdata; [| |contradiction].
  - (* a list *)
    destruct Hh as (vs & Hvs & ->). apply items_at_Forall2 in Hvs.
    rewrite (bindM_Ok (read data) _ h (OList ls) h)
      by (unfold read; now rewrite Hdata).
    cbv zeta. rewrite andb_true_r.
    destruct (existsb contains_dot keys) eqn:Hnested.
    + destruct (prepare_run data keys h ls vs Hdata Hvs)
        as ([out1|e] & h1 & Hrun1 & Hr1);
        [|exists (Err e), h1; rewrite (bindM_Err _ _ _ _ _ Hrun1), Hr1; auto].
      destruct Hr1 as (ls1 & ps & Hout1 & Hps & ->).
      rewrite (bindM_Ok _ _ _ _ _ Hrun1). cbn [bind].
      destruct (main_reverse_arg reverse keys) as [ra|e]; cbn [bind];
        [|exists (Err e), h1; auto].
      rewrite (bindM_Ok (lift (Ok ra)) _ h1 ra h1 eq_refl).
      destruct (sort_json_data_agrees json_loads out1 (VList ps) keys ra policy
                  h1 (holds_list _ _ _ _ Hout1 Hps))
        as ([out2|e] & h2 & Hrun2 & Hr2);
        [|exists (Err e), h2; rewrite (bindM_Err _ _ _ _ _ Hrun2), Hr2; auto].
      destruct Hr2 as (v2 & Hv2 & Hh2). rewrite (bindM_Ok _ _ _ _ _ Hrun2), Hv2.
      destruct (sort_json_data_of_list _ _ _ _ _ _ Hv2) as (s2 & ->).
      apply holds_list_inv in Hh2 as (ls2 & Hout2 & Hs2). cbn [bind].
      rewrite (bindM_Ok (read out2) _ h2 (OList ls2) h2)
        by (unfold read; now rewrite Hout2).
      destruct (restore_run out2 keys h2 ls2 s2 Hout2 Hs2)
        as ([out3|e] & h3 & Hrun3 & Hr3);
        [|exists (Err e), h3; rewrite (bindM_Err _ _ _ _ _ Hrun3), Hr3; auto].
      destruct Hr3 as (ls3 & rs & Hout3 & Hrs & ->).
      rewrite (bindM_Ok _ _ _ _ _ Hrun3). cbn [bind].
      rewrite (bindM_Ok (read out3) _ h3 (OList ls3) h3)
        by (unfold read; now rewrite Hout3).
      exists (Ok out3), h3. split.
      * now destruct ls3 as [|? [|? ?]].
      * exists (VList rs). split; [now destruct rs as [|? [|? ?]]|].
        eapply holds_list; eauto.
    + rewrite (bindM_Ok (ret data) _ h data h eq_refl). cbn [bind].
      destruct (main_reverse_arg reverse keys) as [ra|e]; cbn [bind];
        [|exists (Err e), h; auto].
      rewrite (bindM_Ok (lift (Ok ra)) _ h ra h eq_refl).
      destruct (sort_json_data_agrees json_loads data (VList vs) keys ra policy
                  h Hholds)
        as ([out2|e] & h2 & Hrun2 & Hr2);
        [|exists (Err e), h2; rewrite (bindM_Err _ _ _ _ _ Hrun2), Hr2; auto].
      destruct Hr2 as (v2 & Hv2 & Hh2). rewrite (bindM_Ok _ _ _ _ _ Hrun2), Hv2.
      destruct (sort_json_data_of_list _ _ _ _ _ _ Hv2) as (s2 & ->).
      pose proof Hh2 as Hh2'.
      apply holds_list_inv in Hh2' as (ls2 & Hout2 & Hs2). cbn [bind].
      rewrite (bindM_Ok (read out2) _ h2 (OList ls2) h2)
        by (unfold read; now rewrite Hout2).
      rewrite (bindM_Ok (ret out2) _ h2 out2 h2 eq_refl).
      rewrite (bindM_Ok (read out2) _ h2 (OList ls2) h2)
        by (unfold read; now rewrite Hout2).
      exists (Ok out2), h2. split.
      * now destruct ls2 as [|? [|? ?]].
      * exists (VList s2). split; [now destruct s2 as [|? [|? ?]] | assumption].
  - (* a dict, a JSON text or a scalar *)
    destruct Hh as [-> Hnl].
    rewrite (bindM_Ok (read data) _ h (OItem v) h)
      by (unfold read; now rewrite Hdata).
    cbv zeta. rewrite andb_false_r.
    rewrite (bindM_Ok (ret data) _ h data h eq_refl).
    assert (Hdts : (match v with
                    | VList l =>
                        if existsb contains_dot keys
                        then let* p := prepare_data_with_nested_keys l keys in
                             Ok (VList p)
                        else Ok v
                    | _ => Ok v
                    end) = Ok v).
    { destruct v; try reflexivity. now contradiction (Hnl l). }
    rewrite Hdts. cbn [bind]. clear Hdts.
    destruct (main_reverse_arg reverse keys) as [ra|e]; cbn [bind];
      [|exists (Err e), h; auto].
    rewrite (bindM_Ok (lift (Ok ra)) _ h ra h eq_refl).
    destruct (sort_json_data_agrees json_loads data v keys ra policy h Hholds)
      as ([out2|e] & h2 & Hrun2 & Hr2);
      [|exists (Err e), h2; rewrite (bindM_Err _ _ _ _ _ Hrun2), Hr2; auto].
    destruct Hr2 as (v2 & Hv2 & Hh2). rewrite (bindM_Ok _ _ _ _ _ Hrun2), Hv2.
    cbn [bind].
    assert (Hstage : (match v, v2 with
                      | VList _, VList s =>
                          if existsb contains_dot keys
                          then let* r := mapM (restore_item keys) s in
                               Ok (VList r)
                          else Ok v2
                      | _, _ => Ok v2
                      end) = Ok v2).
    { destruct v; try reflexivity. now contradiction (Hnl l). }
    rewrite Hstage. cbn [bind]. clear Hstage.
    pose proof Hh2 as Hh2'. unfold holds in Hh2'.
    destruct (h2 !! out2) as [[ls2|x2]|] eqn:Hout2; [| |contradiction].
    + destruct Hh2' as (vs2 & Hvs2 & ->). apply items_at_Forall2 in Hvs2.
      rewrite (bindM_Ok (read out2) _ h2 (OList ls2) h2)
        by (unfold read; now rewrite Hout2).
      rewrite (bindM_Ok (ret out2) _ h2 out2 h2 eq_refl).
      rewrite (bindM_Ok (read out2) _ h2 (OList ls2) h2)
        by (unfold read; now rewrite Hout2).
      assert (Hkeep : agrees (ret out2 h2) (Ok (VList vs2))).
      { exists (Ok out2), h2. split; [reflexivity|]. eauto. }
      inversion Hvs2 as [|x0 xv ls2' vs2' Hx0 Hrest]; subst; [exact Hkeep|].
      inversion Hrest; subst; [|exact Hkeep].
      destruct v as [| | | | | |d]; try exact Hkeep.
      apply sort_json_data_of_dict in Hv2 as ->.
      exists (Ok x0), h2. split; [reflexivity|].
      exists (VDict d). split; [reflexivity|].
      apply holds_item; [exact Hx0 | discriminate].
    + destruct Hh2' as [-> Hnl2].
      rewrite (bindM_Ok (read out2) _ h2 (OItem v2) h2)
        by (unfold read; now rewrite Hout2).
      rewrite (bindM_Ok (ret out2) _ h2 out2 h2 eq_refl).
      rewrite (bindM_Ok (read out2) _ h2 (OItem v2) h2)
        by (unfold read; now rewrite Hout2).
      exists (Ok out2), h2. split; [reflexivity|].
      exists v2. split; [|assumption].
      destruct v2 as [| | | | |l2|]; try reflexivity.
      now contradiction (Hnl2 l2).
Qed.
End MainAgrees.

(** ** Non-mutation *)

Lemma keeps_read_known h0 l :
  keeps h0 (read l) (fun o' => forall o, h0 !! l = Some o -> o' = o).
Proof.
  intros h r h' Hsub H. unfold read in H.
  destruct (h !! l) as [o'|] eqn:E; [|discriminate]. injection H as <- <-.
  split; [assumption|]. intros a [= <-] o Ho.
  pose proof (lookup_weaken _ _ _ _ Ho Hsub). congruence.
Qed.

(** For a collection [sort_json_data] returns an object the caller does
    not have. *)
Lemma keeps_sort_json_data_new json_loads h0 data o keys reverse policy :
  h0 !! data = Some o -> is_collection_obj o = true ->
  keeps h0 (sort_json_data_h json_loads data keys reverse policy) (unused h0).
Proof.
  intros Ho Hc.
  eapply keeps_bind; [apply keeps_read_known|]. intros o' Ho'.
  rewrite (Ho' o Ho). clear o' Ho'.
  destruct o as [ls|v]; [apply keeps_sort_json_list|].
  destruct v as [| | | | | |d]; try discriminate.
  assert (Hwrap :
            keeps h0
              (do* wrapped := alloc (OList [data]) in
               sort_json_list_h wrapped keys reverse policy) (unused h0)).
  { eapply keeps_bind; [apply keeps_alloc|].
    intros; apply keeps_sort_json_list. }
  destruct d as [|[k v] d]; try exact Hwrap.
  destruct v; try exact Hwrap; destruct d; try exact Hwrap.
  eapply keeps_bind; [apply keeps_lift with (post := any); now intros|].
  intros sorted_list _. apply keeps_alloc.
Qed.

Lemma keeps_leaves_unchanged h data v (m : M loc) pure post :
  holds h data v -> keeps h m post -> agrees (m h) pure ->
  leaves_unchanged h data v (m h) pure.
Proof.
  intros Hholds Hkeeps (r & h' & Hrun & Hr).
  destruct (Hkeeps h r h' (reflexivity h) Hrun) as [Hsub _].
  exists r, h'. split; [assumption|]. split; [|split; [|assumption]].
  - intros l o Hl. eapply lookup_weaken; eauto.
  - eapply holds_weaken; eauto.
Qed.

(** * The claims *)


(** C1, on the input on which the code departs from it: sorted by [a] with
    [reverse = True], the records [{a:1}], [{a:3}], [{a:2}] come out in
    ascending order, and so they do for [a] descending then [b] ascending:
    the flag only chooses the infinity that stands for a missing value, the
    list is never put in descending order. *)
Theorem reverse_flag_leaves_order_ascending (json_loads : string -> result value) :
  sort_json_data json_loads
    (VList [rec_a (VInt 1); rec_a (VInt 3); rec_a (VInt 2)])
    ["a"] (RevBool true) "last"
  = Ok (VList [rec_a (VInt 1); rec_a (VInt 2); rec_a (VInt 3)]) /\
  py_lt (VInt 1) (VInt 2) = Ok true /\
  sort_json_data json_loads
    (VList [VDict [("a", VInt 1); ("b", VInt 0)];
            VDict [("a", VInt 2); ("b", VInt 0)]])
    ["a"; "b"] (RevList [true; false]) "last"
  = Ok (VList [VDict [("a", VInt 1); ("b", VInt 0)];
               VDict [("a", VInt 2); ("b", VInt 0)]]).
Proof. repeat split; reflexivity. Qed.




(** C3, on the input on which the code departs from it.  The path
    [user.age] resolves to 30 in [{"user":{"age":30}}], and the record
    without [user] gets the flattened field with the value null.  From there
    on it is a record that holds null, not one that lacks the key: under
    [error] the sort succeeds, and under [last], ascending, the record comes
    first. *)
Theorem nested_missing_ignores_policy (json_loads : string -> result value) :
  get_nested_value rec_user_age "user.age" = Ok (VInt 30) /\
  prepare_data_with_nested_keys [rec_user_age; rec_no_user] ["user.age"]
  = Ok [VDict [("user", VDict [("age", VInt 30)]); ("user.age", VInt 30)];
        VDict [("name", VStr "x"); ("user.age", VNone)]] /\
  main_sorted_data json_loads (VList [rec_user_age; rec_no_user])
    ["user.age"] [] "error"
  = Ok (VList [rec_no_user; rec_user_age]) /\
  main_sorted_data json_loads (VList [rec_user_age; rec_no_user])
    ["user.age"] [] "last"
  = Ok (VList [rec_no_user; rec_user_age]) /\
  main_sorted_data json_loads (VList [rec_user_age; rec_no_user])
    ["user.age"] [] "first"
  = Ok (VList [rec_no_user; rec_user_age]).
Proof. repeat split; reflexivity. Qed.

(** C4. The records [{a:1}], [{a:2}], [{}] sorted ascending by [a] come out
    as [{a:1}, {a:2}, {}] under [last] and as [{}, {a:1}, {a:2}] under
    [first]; under [error] the call raises the [KeyError] that names [a]. *)
Theorem missing_key_placement (json_loads : string -> result value) :
  let data := VList [rec_a (VInt 1); rec_a (VInt 2); rec_empty] in
  sort_json_data json_loads data ["a"] (RevBool false) "last"
    = Ok (VList [rec_a (VInt 1); rec_a (VInt 2); rec_empty]) /\
  sort_json_data json_loads data ["a"] (RevBool false) "first"
    = Ok (VList [rec_empty; rec_a (VInt 1); rec_a (VInt 2)]) /\
  sort_json_data json_loads data ["a"] (RevBool false) "error"
    = Err (KeyError "Key 'a' not found in item").
Proof. repeat split; reflexivity. Qed.

(** C5 as stated fails: an empty list of keys is accepted and the data
    comes back in its order, and a strategy that is none of [first], [last]
    and [error] is accepted and the data sorted: nothing is raised. *)
Lemma empty_keys_and_unknown_strategy_accepted :
  sort_json_data reject_text (VList [rec_a (VInt 2); rec_a (VInt 1)])
    [] (RevBool false) "last"
  = Ok (VList [rec_a (VInt 2); rec_a (VInt 1)]) /\
  sort_json_data reject_text (VList [rec_a (VInt 2); rec_a (VInt 1)])
    ["a"] (RevBool false) "middle"
  = Ok (VList [rec_a (VInt 1); rec_a (VInt 2)]).
Proof. split; reflexivity. Qed.

(** C5, amended. For a collection (a list or a mapping) the call raises a
    [ValueError] exactly when [reverse] is a list whose length differs from
    the number of sort keys; the error is then the direction count one,
    whatever the records hold; three keys with two flags is such a case. *)
Theorem direction_count_validation (json_loads : string -> result value)
    (data : value) (keys : list string) (rev : reverse_arg) (policy : string) :
  is_collection data = true ->
  ((exists msg,
      sort_json_data json_loads data keys rev policy = Err (ValueError msg))
   <-> exists l, rev = RevList l /\ length l <> length keys) /\
  ((exists l, rev = RevList l /\ length l <> length keys) ->
   sort_json_data json_loads data keys rev policy
   = Err (ValueError reverse_length_message)) /\
  (forall k1 k2 k3 b1 b2,
     sort_json_data json_loads data [k1; k2; k3] (RevList [b1; b2]) policy
     = Err (ValueError reverse_length_message)).
Proof.
  intros Hc.
  assert (Hfail : forall keys rev,
            (exists l, rev = RevList l /\ length l <> length keys) ->
            sort_json_data json_loads data keys rev policy
            = Err (ValueError reverse_length_message)).
  { intros keys' rev' Hl.
    assert (Hn : normalize_reverse rev' keys'
                 = Err (ValueError reverse_length_message))
      by (apply normalize_reverse_Err; auto).
    rewrite sort_json_data_collection by assumption.
    assert (Hs : sort_json_list (records_of data) keys' rev' policy
                 = Err (ValueError reverse_length_message))
      by (unfold sort_json_list; now rewrite Hn).
    rewrite Hs. destruct data as [| | | | |l|d]; try reflexivity.
    destruct d as [|[k v] [|kv d]]; try reflexivity; destruct v; reflexivity. }
  split; [split | split].
  - intros [msg H]. rewrite sort_json_data_collection in H by assumption.
    assert (Hs : sort_json_list (records_of data) keys rev policy
                 = Err (ValueError msg)).
    { destruct data as [| | | | |l|d]; try exact H.
      destruct d as [|[k v] [|kv d]]; try exact H; destruct v; try exact H.
      unfold rmap in H. apply bind_Err in H as [H | (? & _ & H)];
        [exact H | discriminate]. }
    apply sort_json_list_Err in Hs as [Hs | (_ & [Hs | [m Hs]])];
      try discriminate.
    now apply normalize_reverse_Err in Hs as (_ & Hl).
  - intros Hl. eexists. now apply Hfail.
  - apply Hfail.
  - intros k1 k2 k3 b1 b2. apply Hfail. exists [b1; b2]. split; [reflexivity|].
    simpl. lia.
Qed.

Lemma direction_count_validation_witness :
  is_collection (VList [rec_a (VInt 2); rec_empty]) = true /\
  sort_json_data reject_text (VList [rec_a (VInt 2); rec_empty])
    ["a"; "b"; "c"] (RevList [true; false]) "error"
  = Err (ValueError reverse_length_message).
Proof.
  split; [reflexivity|].
  apply (direction_count_validation reject_text
           (VList [rec_a (VInt 2); rec_empty]) [] (RevBool false) "error");
    reflexivity.
Defined.









(** C8. A mapping with one entry whose value is a list of records comes
    back as a mapping with the same single key whose value is that list
    sorted, and fails exactly as sorting the list fails; [{"items":
    [{"a":2},{"a":1}]}] sorted by [a] ascending gives [{"items":
    [{"a":1},{"a":2}]}]. *)
Theorem wrapping_preserved (json_loads : string -> result value)
    (key : string) (items : list value) (keys : list string)
    (rev : reverse_arg) (policy : string) :
  (forall out,
     sort_json_data json_loads (VDict [(key, VList items)]) keys rev policy
     = Ok out <->
     exists sorted,
       sort_json_data json_loads (VList items) keys rev policy
       = Ok (VList sorted) /\
       out = VDict [(key, VList sorted)]) /\
  (forall e,
     sort_json_data json_loads (VDict [(key, VList items)]) keys rev policy
     = Err e <->
     sort_json_data json_loads (VList items) keys rev policy = Err e) /\
  sort_json_data json_loads
    (VDict [("items", VList [rec_a (VInt 2); rec_a (VInt 1)])])
    ["a"] (RevBool false) "last"
  = Ok (VDict [("items", VList [rec_a (VInt 1); rec_a (VInt 2)])]).
Proof.
  rewrite sort_json_data_list.
  change (sort_json_data json_loads (VDict [(key, VList items)]) keys rev policy)
    with (rmap (fun s => VDict [(key, s)])
               (sort_json_list items keys rev policy)).
  repeat split.
  - intros H. unfold rmap in H. inv_bind H. injection H as <-.
    pose proof Ha as Ha'.
    apply sort_json_list_Ok in Ha' as (rl & sorted & _ & _ & ->). eauto.
  - intros (sorted & -> & ->). reflexivity.
  - intros H. unfold rmap in H.
    apply bind_Err in H as [H | (? & _ & H)]; [exact H | discriminate].
  - intros ->. reflexivity.
Qed.

(** C9. Take a store in which [data] holds a collection.  A call of
    [sort_json_data], of [main]'s sorting, or of
    [prepare_data_with_nested_keys] ends and leaves every object of that
    store as it was, the collection and its records among them;
    [sort_json_data] and [prepare_data_with_nested_keys] return a list (or
    mapping) that is a new object, and the flattened fields are in the new
    records of that list, which hold what the functions on values compute. *)
Theorem original_collection_unchanged (json_loads : string -> result value)
    (h : heap) (data : loc) (v : value) (keys : list string) :
  holds h data v -> is_collection v = true ->
  (forall reverse policy,
     leaves_unchanged h data v
       (sort_json_data_h json_loads data keys reverse policy h)
       (sort_json_data json_loads v keys reverse policy) /\
     returns_new h (sort_json_data_h json_loads data keys reverse policy h)) /\
  (forall reverse policy,
     leaves_unchanged h data v
       (main_sorted_data_h json_loads data keys reverse policy h)
       (main_sorted_data json_loads v keys reverse policy)) /\
  (forall vs, v = VList vs ->
     leaves_unchanged h data v
       (prepare_data_with_nested_keys_h data keys h)
       (rmap VList (prepare_data_with_nested_keys vs keys)) /\
     returns_new h (prepare_data_with_nested_keys_h data keys h)).
Proof.
  intros Hholds Hc. split; [|split].
  - intros rv policy. split.
    + eapply keeps_leaves_unchanged;
        [assumption | apply keeps_sort_json_data
         | now apply sort_json_data_agrees].
    + intros out h' Hrun.
      assert (Ho : exists o, h !! data = Some o /\ is_collection_obj o = true).
      { unfold holds in Hholds. destruct (h !! data) as [[ls|x]|];
          [eauto | | contradiction].
        destruct Hholds as [-> Hnl]. exists (OItem v). split; [reflexivity|].
        destruct v as [| | | | |l|]; try discriminate; try reflexivity.
        now contradiction (Hnl l). }
      destruct Ho as (o & Ho & Hco).
      destruct (keeps_sort_json_data_new json_loads h data o keys rv policy
                  Ho Hco h _ _ (reflexivity h) Hrun) as [_ Hnew].
      now apply Hnew.
  - intros rv policy. eapply keeps_leaves_unchanged;
      [assumption | apply keeps_main | now apply main_agrees].
  - intros vs ->. split.
    + pose proof Hholds as Hinv. apply holds_list_inv in Hinv.
      destruct Hinv as (ls & Hdata & Hls).
      eapply keeps_leaves_unchanged; [assumption | apply keeps_prepare|].
      destruct (prepare_run data keys h ls vs Hdata Hls) as (r & h' & Hrun & Hr).
      exists r, h'. split; [assumption|]. destruct r as [out|e].
      * destruct Hr as (ls' & ps & Hout & Hps & ->).
        exists (VList ps). split; [reflexivity|]. eapply holds_list; eauto.
      * now rewrite Hr.
    + intros out h' Hrun.
      destruct (keeps_prepare h data keys h _ _ (reflexivity h) Hrun)
        as [_ Hnew].
      now apply Hnew.
Qed.

Lemma original_collection_unchanged_witness :
  leaves_unchanged store_of_two_records 2 (VList [rec_user_age; rec_no_user])
    (main_sorted_data_h reject_text 2 ["user.age"] [] "last"
       store_of_two_records)
    (main_sorted_data reject_text (VList [rec_user_age; rec_no_user])
       ["user.age"] [] "last").
Proof.
  apply (original_collection_unchanged reject_text store_of_two_records 2
           (VList [rec_user_age; rec_no_user]) ["user.age"]).
  - unfold holds. vm_compute. eexists. split; reflexivity.
  - reflexivity.
Defined.





(** * Further properties of the code *)

(** ** What [sort_json_data] returns and raises *)

Lemma sorted_by_ext {A K} (lt : K -> K -> result bool)
    (key1 key2 : A -> result K) l :
  (forall x, In x l -> key1 x = key2 x) ->
  sorted_by lt key1 l = sorted_by lt key2 l.
Proof.
  intros H. rewrite !sorted_by_unfold.
  rewrite (mapM_ext (with_key key1) (with_key key2)); [reflexivity|].
  intros x Hx. unfold with_key. now rewrite H.
Qed.

(** X1. A successful sort of a collection loses, adds and changes no
    record: the records of the output are those of the input in some order,
    in a list for a list or a single record, and under the same single key
    for a mapping that wraps a list. *)
Theorem sort_keeps_the_records (json_loads : string -> result value)
    (data : value) (keys : list string) (rev : reverse_arg)
    (policy : string) (out : value) :
  is_collection data = true ->
  sort_json_data json_loads data keys rev policy = Ok out ->
  Permutation (records_of data) (records_of out) /\
  match data with
  | VDict [(key, VList _)] => out = VDict [(key, VList (records_of out))]
  | _ => out = VList (records_of out)
  end.
Proof.
  intros Hc H. rewrite sort_json_data_collection in H by assumption.
  assert (Hlist : forall l o,
            sort_json_list l keys rev policy = Ok o ->
            exists sorted, o = VList sorted /\ Permutation l sorted).
  { intros l o Hs.
    apply sort_json_list_Ok in Hs as (rl & sorted & _ & Hs & ->).
    exists sorted. split; [reflexivity|]. eapply sorted_by_perm; eauto. }
  assert (Hplain : sort_json_list (records_of data) keys rev policy = Ok out ->
            Permutation (records_of data) (records_of out) /\
            out = VList (records_of out)).
  { intros Hs. apply Hlist in Hs as (sorted & -> & Hp). auto. }
  destruct data as [| | | | |l|d]; try discriminate; [exact (Hplain H)|].
  destruct d as [|[k v] d]; try exact (Hplain H).
  destruct v; try exact (Hplain H); destruct d; try exact (Hplain H).
  unfold rmap in H. inv_bind H. injection H as <-.
  apply Hlist in Ha as (sorted & -> & Hp). auto.
Qed.

Lemma sort_keeps_the_records_witness :
  Permutation
    (records_of (VDict [("items", VList [rec_a (VInt 2); rec_a (VInt 1)])]))
    (records_of (VDict [("items", VList [rec_a (VInt 1); rec_a (VInt 2)])])) /\
  VDict [("items", VList [rec_a (VInt 1); rec_a (VInt 2)])]
  = VDict [("items",
            VList (records_of
                     (VDict [("items",
                              VList [rec_a (VInt 1); rec_a (VInt 2)])])))].
Proof.
  apply (sort_keeps_the_records reject_text
           (VDict [("items", VList [rec_a (VInt 2); rec_a (VInt 1)])])
           ["a"] (RevBool false) "last"); reflexivity.
Defined.

(** The exceptions of the key function, by strategy. *)
Lemma get_sort_value_Err_cases policy item key rev e :
  get_sort_value policy item key rev = Err e ->
  e = TypeError \/
  (policy = "error" /\ e = KeyError (missing_key_message key)) \/
  (policy <> "error" /\ policy <> "first" /\ policy <> "last" /\
   e = KeyError key).
Proof.
  unfold get_sort_value. intros H.
  apply bind_Err in H as [H | (present & Hpres & H)].
  - left. destruct item; simpl in H; congruence.
  - assert (Hl : lookup_value item key rev = Err e ->
                 present = true -> e = TypeError).
    { unfold lookup_value, py_getitem. intros Hl ->.
      destruct item as [| | | | | |d]; simpl in Hl, Hpres; try congruence.
      destruct (dict_get key d) as [v|]; [|discriminate].
      simpl in Hl. destruct v; discriminate. }
    destruct present; simpl in H; [left; auto|].
    destruct (String.eqb_spec policy "error") as [->|Hne];
      [injection H as <-; auto|].
    destruct (String.eqb_spec policy "first") as [->|Hnf]; [discriminate|].
    destruct (String.eqb_spec policy "last") as [->|Hnl]; [discriminate|].
    apply lookup_value_Err in H as [->| ->]; auto 6.
Qed.

(** X2. The exceptions of a sort of a list: the direction count
    [ValueError]; a [TypeError]; under [error] the [KeyError] whose message
    names a sort key; under a strategy that is none of the three the bare
    [KeyError] of a sort key.  Under [first] and [last] no [KeyError] is
    raised, whatever the items are. *)
Theorem sort_exceptions (json_loads : string -> result value)
    (data : list value) (keys : list string) (rev : reverse_arg)
    (policy : string) (e : exn) :
  sort_json_data json_loads (VList data) keys rev policy = Err e ->
  (e = ValueError reverse_length_message /\
   exists l, rev = RevList l /\ length l <> length keys) \/
  e = TypeError \/
  (exists k, In k keys /\
     (policy = "error" /\ e = KeyError (missing_key_message k) \/
      policy <> "error" /\ policy <> "first" /\ policy <> "last" /\
      e = KeyError k)).
Proof.
  rewrite sort_json_data_list. unfold sort_json_list. intros H.
  apply bind_Err in H as [H | (rl & Hrl & H)].
  - left. now apply normalize_reverse_Err in H.
  - right. apply bind_Err in H as [H | (? & _ & H)]; [|discriminate].
    apply sorted_by_Err in H as [(x & _ & H) | (a & b & H)];
      [|left; eapply tuple_lt_Err; eauto].
    unfold sort_key in H. apply mapM_Err in H as ([k r] & Hin & H).
    apply in_combine_l in Hin. simpl in H.
    apply get_sort_value_Err_cases in H as [->|[[-> ->]|(? & ? & ? & ->)]];
      [left; reflexivity | right; exists k; auto | right; exists k; auto 6].
Qed.

Lemma sort_exceptions_witness :
  (KeyError "a" = ValueError reverse_length_message /\
   exists l, RevBool false = RevList l /\ length l <> length ["a"]) \/
  KeyError "a" = TypeError \/
  (exists k, In k ["a"] /\
     ("middle" = "error" /\ KeyError "a" = KeyError (missing_key_message k) \/
      "middle" <> "error" /\ "middle" <> "first" /\ "middle" <> "last" /\
      KeyError "a" = KeyError k)).
Proof.
  apply (sort_exceptions reject_text [rec_a (VInt 2); rec_empty]
           ["a"] (RevBool false) "middle" (KeyError "a")).
  reflexivity.
Defined.

(** Items whose keys are all alike, none smaller than another, stay as they
    are. *)
Lemma sorted_by_flat {A K} (lt : K -> K -> result bool)
    (key : A -> result K) (k : K) l :
  lt k k = Ok false -> (forall x, In x l -> key x = Ok k) ->
  sorted_by lt key l = Ok l.
Proof.
  intros Hlt Hkey. rewrite sorted_by_unfold.
  assert (Hkeyed : mapM (with_key key) l = Ok (map (fun x => (k, x)) l)).
  { apply mapM_Ok_Forall2. clear -Hkey.
    induction l as [|x l IH]; simpl; constructor.
    - apply with_key_Ok. simpl. split; [apply Hkey; now left | reflexivity].
    - apply IH. intros y Hy. apply Hkey. now right. }
  rewrite Hkeyed. cbn [bind]. rewrite sort_keyed_sorted.
  - cbn [bind]. rewrite map_map. simpl. now rewrite map_id.
  - clear -Hlt. induction l as [|x [|y r] IH]; simpl; constructor;
      [exact Hlt | exact IH].
Qed.

(** X3. With no sort key a list comes back in the order it has, whatever
    its items, the strategy and the one flag (or empty list of flags). *)
Theorem no_key_keeps_the_order (json_loads : string -> result value)
    (data : list value) (rev : reverse_arg) (policy : string) :
  (forall l, rev = RevList l -> l = []) ->
  sort_json_data json_loads (VList data) [] rev policy = Ok (VList data).
Proof.
  intros Hrev. rewrite sort_json_data_list. unfold sort_json_list.
  assert (Hrl : normalize_reverse rev [] = Ok []).
  { destruct rev as [b|l]; [reflexivity|]. now rewrite (Hrev l eq_refl). }
  rewrite Hrl. cbn [bind]. unfold py_sorted.
  rewrite (sorted_by_flat tuple_lt _ []); [reflexivity | reflexivity|].
  intros x _. reflexivity.
Qed.

Lemma no_key_keeps_the_order_witness :
  sort_json_data reject_text (VList [VInt 3; VStr "x"; rec_empty]) []
    (RevBool true) "error"
  = Ok (VList [VInt 3; VStr "x"; rec_empty]).
Proof.
  apply (no_key_keeps_the_order reject_text [VInt 3; VStr "x"; rec_empty]
           (RevBool true) "error").
  discriminate.
Defined.

(** The key tuple of a record that holds a value other than null for every
    sort key: those values, whatever the strategy and the flags. *)
Lemma sort_key_all_present policy keys rl d :
  length rl = length keys ->
  (forall k, In k keys -> exists v, dict_get k d = Some v /\ v <> VNone) ->
  sort_key policy keys rl (VDict d)
  = Ok (map (fun k => match dict_get k d with Some v => v | None => VNone end)
            keys).
Proof.
  unfold sort_key. revert rl; induction keys as [|k keys IH];
    intros [|r rl] Hlen Hall; try discriminate; [reflexivity|].
  simpl. destruct (Hall k) as (v & Hv & Hn); [now left|].
  rewrite (get_sort_value_present _ _ _ _ _ Hv Hn). cbn [bind].
  rewrite IH; [now rewrite Hv | simpl in Hlen; lia | intros; apply Hall; now right].
Qed.

(** X4. On records that hold a value other than null for every sort key, the
    flags and the strategy change nothing: two calls that differ in them
    only give the same result. *)
Theorem flags_matter_for_missing_values_only (json_loads : string -> result value)
    (data : list value) (keys : list string) (rev1 rev2 : reverse_arg)
    (policy1 policy2 : string) (rl1 rl2 : list bool) :
  normalize_reverse rev1 keys = Ok rl1 ->
  normalize_reverse rev2 keys = Ok rl2 ->
  (forall x, In x data ->
     exists d, x = VDict d /\
       forall k, In k keys -> exists v, dict_get k d = Some v /\ v <> VNone) ->
  sort_json_data json_loads (VList data) keys rev1 policy1
  = sort_json_data json_loads (VList data) keys rev2 policy2.
Proof.
  intros H1 H2 Hall. rewrite !sort_json_data_list. unfold sort_json_list.
  rewrite H1, H2. cbn [bind]. unfold py_sorted.
  rewrite (sorted_by_ext tuple_lt (sort_key policy1 keys rl1)
             (sort_key policy2 keys rl2)); [reflexivity|].
  intros x Hx. destruct (Hall x Hx) as (d & -> & Hd).
  rewrite !sort_key_all_present; auto; eapply normalize_reverse_length; eauto.
Qed.

Lemma flags_matter_for_missing_values_only_witness :
  sort_json_data reject_text (VList [rec_a (VInt 2); rec_a (VInt 1)])
    ["a"] (RevBool false) "last"
  = sort_json_data reject_text (VList [rec_a (VInt 2); rec_a (VInt 1)])
      ["a"] (RevList [true]) "error".
Proof.
  apply (flags_matter_for_missing_values_only reject_text
           [rec_a (VInt 2); rec_a (VInt 1)] ["a"]
           (RevBool false) (RevList [true]) "last" "error" [false] [true]).
  - reflexivity.
  - reflexivity.
  - intros x [<-|[<-|[]]]; eexists; (split; [reflexivity|]);
      intros k [<-|[]]; eexists; (split; [reflexivity | discriminate]).
Defined.

(** ** Dot paths: [get_nested_value] *)

Lemma split_on_nonempty c s : split_on c s <> [].
Proof.
  destruct s as [|a s]; simpl; [discriminate|].
  destruct (Ascii.eqb a c); [discriminate|].
  destruct (split_on c s); discriminate.
Qed.

Lemma split_on_app c a b :
  split_on c (a ++ String c b) = split_on c a ++ split_on c b.
Proof.
  induction a as [|x a IH]; simpl.
  - now rewrite Ascii.eqb_refl.
  - destruct (Ascii.eqb x c); [now rewrite IH|].
    rewrite IH. pose proof (split_on_nonempty c a) as Hne.
    destruct (split_on c a); [contradiction | reflexivity].
Qed.

Lemma split_on_no_dot s : contains_dot s = false -> split_on "." s = [s].
Proof.
  unfold contains_dot. induction s as [|a s IH];
    cbn [list_ascii_of_string existsb split_on]; [reflexivity|].
  intros H. apply orb_false_iff in H as [Ha Hs].
  rewrite Ascii.eqb_sym, Ha, (IH Hs). reflexivity.
Qed.

(** The path in the message plays no part in a lookup that succeeds. *)
Lemma get_nested_loop_path p q ks v r :
  get_nested_loop p ks v = Ok r -> get_nested_loop q ks v = Ok r.
Proof.
  revert v. induction ks as [|k ks IH]; intros v; simpl; [auto|].
  destruct v; try discriminate.
  destruct (dict_get k d); [apply IH | discriminate].
Qed.

Lemma get_nested_loop_app p l1 l2 v r :
  get_nested_loop p (l1 ++ l2) v = Ok r <->
  exists w, get_nested_loop p l1 v = Ok w /\ get_nested_loop p l2 w = Ok r.
Proof.
  revert v. induction l1 as [|k l1 IH]; intros v; simpl.
  - split; [eauto | now intros (w & [= ->] & H)].
  - destruct v; try (split; [discriminate | now intros (w & ? & _)]).
    destruct (dict_get k d); [apply IH|].
    split; [discriminate | now intros (w & ? & _)].
Qed.

Lemma get_nested_loop_Err p ks v e :
  get_nested_loop p ks v = Err e ->
  exists k, In k ks /\ e = KeyError (nested_key_message k p).
Proof.
  revert v. induction ks as [|k ks IH]; intros v; simpl; [discriminate|].
  assert (Hk : (Err (KeyError (nested_key_message k p)) : result value)
               = Err e ->
               exists k', (k = k' \/ In k' ks) /\
                          e = KeyError (nested_key_message k' p)).
  { intros [= <-]. exists k. split; [now left | reflexivity]. }
  destruct v; try exact Hk.
  destruct (dict_get k d) as [w|]; [|exact Hk].
  intros H. destruct (IH _ H) as (k' & Hin & ->). exists k'. auto.
Qed.

(** X5. A path [a.b] resolves to [v] exactly when [a] resolves to some [w]
    and [b] resolves to [v] from [w]: dot paths compose, whatever dots [a]
    and [b] have themselves. *)
Theorem nested_path_composes (item : value) (a b : string) (v : value) :
  get_nested_value item (a ++ "." ++ b) = Ok v <->
  exists w, get_nested_value item a = Ok w /\ get_nested_value w b = Ok v.
Proof.
  unfold get_nested_value. change ("." ++ b)%string with (String "." b).
  rewrite split_on_app.
  rewrite get_nested_loop_app. split; intros (w & Ha & Hb); exists w; split;
    eapply get_nested_loop_path; eassumption.
Qed.

(** X6. A path without a dot is one lookup: the field of that name in a
    dict; on a dict without the field, and on anything that is not a dict,
    the [KeyError] that names the path twice. *)
Theorem undotted_path_is_a_lookup (item : value) (k : string) :
  contains_dot k = false ->
  get_nested_value item k =
  match item with
  | VDict d =>
      match dict_get k d with
      | Some v => Ok v
      | None => Err (KeyError (nested_key_message k k))
      end
  | _ => Err (KeyError (nested_key_message k k))
  end.
Proof.
  intros H. unfold get_nested_value. rewrite (split_on_no_dot _ H). simpl.
  destruct item; reflexivity || now destruct (dict_get k d).
Qed.

Lemma undotted_path_is_a_lookup_witness :
  get_nested_value rec_no_user "name" = Ok (VStr "x").
Proof.
  apply (undotted_path_is_a_lookup rec_no_user "name"). reflexivity.
Defined.

(** X7. The only exception of [get_nested_value] is the [KeyError] whose
    message names the path and one of its components: on a list, a number or
    a text in the way it raises no [TypeError]. *)
Theorem nested_path_raises_KeyError_only (item : value) (key_path : string)
    (e : exn) :
  get_nested_value item key_path = Err e ->
  exists k, In k (split_on "." key_path) /\
            e = KeyError (nested_key_message k key_path).
Proof. apply get_nested_loop_Err. Qed.

Lemma nested_path_raises_KeyError_only_witness :
  exists k, In k (split_on "." "user.age") /\
            KeyError (nested_key_message "age" "user.age")
            = KeyError (nested_key_message k "user.age").
Proof.
  apply (nested_path_raises_KeyError_only
           (VDict [("user", VList [VInt 1])]) "user.age").
  reflexivity.
Defined.

(** ** Flattening and restoring the records: [prepare_data_with_nested_keys]
    and the comprehension of [main] *)

Lemma dict_get_set_eq k v d : dict_get k (dict_set k v d) = Some v.
Proof.
  induction d as [|[k' v'] d IH]; simpl; [now rewrite String.eqb_refl|].
  destruct (String.eqb k k') eqn:E; simpl; now rewrite E.
Qed.

Lemma dict_get_set_ne k k' v d :
  k <> k' -> dict_get k' (dict_set k v d) = dict_get k' d.
Proof.
  intros Hne. induction d as [|[k0 v0] d IH]; simpl.
  - apply not_eq_sym in Hne. apply String.eqb_neq in Hne. now rewrite Hne.
  - destruct (String.eqb k k0) eqn:E; simpl; [|now rewrite IH].
    apply String.eqb_eq in E as <-.
    apply not_eq_sym in Hne. apply String.eqb_neq in Hne. now rewrite Hne.
Qed.

(** One turn of the inner loop on a dict: the [KeyError] of the lookup is
    the only exception there is to catch. *)
Lemma flatten_key_dict item f k :
  flatten_key item (VDict f) k =
  Ok (VDict (if contains_dot k then dict_set k (nested_or_null item k) f
             else f)).
Proof.
  unfold flatten_key, nested_or_null. destruct (contains_dot k); [|reflexivity].
  destruct (get_nested_value item k) as [v|e] eqn:E; [reflexivity|].
  apply get_nested_loop_Err in E as (k' & _ & ->). reflexivity.
Qed.

Lemma flatten_keys_dict item keys f :
  foldM (flatten_key item) keys (VDict f) =
  Ok (VDict (fold_left
               (fun f k => if contains_dot k
                           then dict_set k (nested_or_null item k) f else f)
               keys f)).
Proof.
  revert f. induction keys as [|k keys IH]; intros f; simpl; [reflexivity|].
  rewrite flatten_key_dict. cbn [bind]. apply IH.
Qed.

Lemma flattened_cons k0 keys k :
  flattened (k0 :: keys) k = String.eqb k k0 && contains_dot k || flattened keys k.
Proof.
  unfold flattened. simpl.
  destruct (String.eqb k k0), (existsb (String.eqb k) keys), (contains_dot k);
    reflexivity.
Qed.

Lemma flatten_keys_get item keys f k :
  dict_get k (fold_left
                (fun f k => if contains_dot k
                            then dict_set k (nested_or_null item k) f else f)
                keys f)
  = if flattened keys k then Some (nested_or_null item k) else dict_get k f.
Proof.
  revert f. induction keys as [|k0 keys IH]; intros f; simpl; [reflexivity|].
  rewrite IH, flattened_cons.
  destruct (flattened keys k); [now rewrite orb_true_r|].
  rewrite orb_false_r. destruct (String.eqb k k0) eqn:E; simpl.
  - apply String.eqb_eq in E as ->.
    destruct (contains_dot k0); [apply dict_get_set_eq | reflexivity].
  - apply String.eqb_neq in E.
    destruct (contains_dot k0); [|reflexivity].
    apply dict_get_set_ne. congruence.
Qed.

Lemma prepare_item_on_dict keys d :
  exists d', prepare_item keys (VDict d) = Ok (VDict d').
Proof. eexists. unfold prepare_item. simpl. apply flatten_keys_dict. Qed.

(** X8. On a dict, flattening cannot fail.  The copy it returns has, under
    each sort key with a dot, the value the path resolves to in the record,
    or null when it does not resolve; every other field reads as in the
    record. *)
Theorem prepare_adds_the_nested_values (keys : list string) (d : dict) :
  exists d',
    prepare_item keys (VDict d) = Ok (VDict d') /\
    forall k,
      dict_get k d' =
      if flattened keys k then Some (nested_or_null (VDict d) k)
      else dict_get k d.
Proof.
  eexists. split.
  - unfold prepare_item. simpl. apply flatten_keys_dict.
  - intros k. apply flatten_keys_get.
Qed.

Lemma flatten_keys_not_dict l keys :
  existsb contains_dot keys = true ->
  foldM (flatten_key (VList l)) keys (VList l) = Err TypeError.
Proof.
  induction keys as [|k keys IH]; simpl; [discriminate|].
  unfold flatten_key at 1. destruct (contains_dot k); simpl; [intros _ | exact IH].
  destruct (get_nested_value (VList l) k) as [v|e] eqn:E; [|
    apply get_nested_loop_Err in E as (k' & _ & ->); reflexivity].
  unfold get_nested_value in E. pose proof (split_on_nonempty "." k) as Hne.
  destruct (split_on "." k); [contradiction | discriminate].
Qed.

Lemma prepare_item_not_dict keys x :
  existsb contains_dot keys = true -> is_dict x = false ->
  prepare_item keys x = Err AttributeError \/
  prepare_item keys x = Err TypeError.
Proof.
  intros Hk Hx. destruct x; try discriminate; try (now left).
  right. unfold prepare_item. simpl. now apply flatten_keys_not_dict.
Qed.

Lemma prepare_item_dict_Ok keys x :
  is_dict x = true -> exists y, prepare_item keys x = Ok y.
Proof.
  destruct x; try discriminate. intros _.
  destruct (prepare_item_on_dict keys d) as (d' & H). eauto.
Qed.

(** X9. With a dotted key among the sort keys, flattening goes through
    exactly on a list of dicts, and gives as many records as it got.  A
    record that is not a dict ends it with the [AttributeError] of [copy],
    or, for a list, the [TypeError] of the assignment. *)
Theorem prepare_needs_dicts (data : list value) (keys : list string) :
  existsb contains_dot keys = true ->
  match prepare_data_with_nested_keys data keys with
  | Ok out => forallb is_dict data = true /\ length out = length data
  | Err e => forallb is_dict data = false /\
             (e = AttributeError \/ e = TypeError)
  end.
Proof.
  intros Hk. unfold prepare_data_with_nested_keys.
  induction data as [|x data IH]; simpl; [split; reflexivity|].
  destruct (is_dict x) eqn:Hx; simpl.
  - destruct (prepare_item_dict_Ok keys x Hx) as (y & ->). cbn [bind].
    destruct (mapM (prepare_item keys) data) as [out|e]; simpl;
      [destruct IH as [-> IH]; split; [reflexivity | now rewrite IH]
      | exact IH].
  - destruct (prepare_item_not_dict keys x Hk Hx) as [-> | ->]; simpl; auto.
Qed.

Lemma prepare_needs_dicts_witness :
  match prepare_data_with_nested_keys [rec_user_age; VList []] ["user.age"] with
  | Ok out => forallb is_dict [rec_user_age; VList []] = true /\
              length out = length [rec_user_age; VList []]
  | Err e => forallb is_dict [rec_user_age; VList []] = false /\
             (e = AttributeError \/ e = TypeError)
  end.
Proof.
  apply (prepare_needs_dicts [rec_user_age; VList []] ["user.age"]).
  reflexivity.
Defined.

Lemma filter_dict_set (keep : string * value -> bool) k v f :
  (forall w, keep (k, w) = false) ->
  List.filter keep (dict_set k v f) = List.filter keep f.
Proof.
  intros Hk. induction f as [|[k' v'] f IH]; simpl; [now rewrite Hk|].
  destruct (String.eqb k k') eqn:E; simpl; [|now rewrite IH].
  apply String.eqb_eq in E as <-. now rewrite !Hk.
Qed.

Lemma flatten_keys_filter item keys ks f :
  incl ks keys ->
  List.filter (fun kv => negb (flattened keys (fst kv)))
    (fold_left
       (fun f k => if contains_dot k
                   then dict_set k (nested_or_null item k) f else f)
       ks f)
  = List.filter (fun kv => negb (flattened keys (fst kv))) f.
Proof.
  revert f. induction ks as [|k ks IH]; intros f Hin; simpl; [reflexivity|].
  rewrite IH; [|intros x Hx; apply Hin; now right].
  destruct (contains_dot k) eqn:Hdot; [|reflexivity].
  apply filter_dict_set. intros w. simpl. unfold flattened. rewrite Hdot.
  assert (Hex : existsb (String.eqb k) keys = true).
  { apply existsb_exists. exists k.
    split; [apply Hin; now left | apply String.eqb_refl]. }
  now rewrite Hex.
Qed.

Lemma restore_item_without keys d :
  restore_item keys (VDict d) = Ok (without_flattened keys (VDict d)).
Proof.
  unfold restore_item, without_flattened, flattened. do 2 f_equal.
  apply filter_ext. intros [k v]. simpl.
  now destruct (existsb (String.eqb k) keys), (contains_dot k).
Qed.

(** What the comprehension of [main] makes of a flattened record: the
    record without its fields that have the name of a dotted sort key. *)
Lemma restore_prepared keys d :
  exists p,
    prepare_item keys (VDict d) = Ok p /\
    restore_item keys p = Ok (without_flattened keys (VDict d)).
Proof.
  eexists. split; [unfold prepare_item; simpl; apply flatten_keys_dict|].
  rewrite restore_item_without. unfold without_flattened.
  rewrite flatten_keys_filter; [reflexivity | apply incl_refl].
Qed.

Lemma without_flattened_id keys d :
  (forall k v, In (k, v) d -> flattened keys k = false) ->
  without_flattened keys (VDict d) = VDict d.
Proof.
  intros H. unfold without_flattened. f_equal.
  induction d as [|[k v] d IH]; simpl; [reflexivity|].
  rewrite (H k v); [|now left]. simpl. f_equal.
  apply IH. intros k' v' Hin. apply (H k' v'). now right.
Qed.

(** X10. Flattening and then restoring gives the record back, field for
    field and in the same order, when no field of it has the name of a
    dotted sort key. *)
Theorem restore_undoes_prepare (keys : list string) (d : dict) :
  (forall k v, In (k, v) d -> flattened keys k = false) ->
  exists p,
    prepare_item keys (VDict d) = Ok p /\
    restore_item keys p = Ok (VDict d).
Proof.
  intros H. destruct (restore_prepared keys d) as (p & Hp & Hr).
  exists p. split; [assumption|]. now rewrite Hr, without_flattened_id.
Qed.

Lemma restore_undoes_prepare_witness :
  exists p,
    prepare_item ["user.age"; "name"] rec_user_age = Ok p /\
    restore_item ["user.age"; "name"] p = Ok rec_user_age.
Proof.
  apply (restore_undoes_prepare ["user.age"; "name"]
           [("user", VDict [("age", VInt 30)])]).
  intros k v [[= <- <-]|[]]. reflexivity.
Defined.

(** X11. A field that has the name of a dotted sort key does not survive:
    what comes back from flattening and restoring a record has no such
    field, whether the record had one or not. *)
Theorem restore_drops_dotted_fields (keys : list string) (d : dict)
    (k : string) :
  flattened keys k = true ->
  exists p d',
    prepare_item keys (VDict d) = Ok p /\
    restore_item keys p = Ok (VDict d') /\
    dict_get k d' = None.
Proof.
  intros Hk. destruct (restore_prepared keys d) as (p & Hp & Hr).
  exists p. eexists. split; [eassumption|]. split; [exact Hr|].
  clear p Hp Hr. induction d as [|[k' v] d IH]; simpl; [reflexivity|].
  destruct (flattened keys k') eqn:E; simpl; [exact IH|].
  destruct (String.eqb k k') eqn:Ek; [|exact IH].
  apply String.eqb_eq in Ek as ->. congruence.
Qed.

Lemma restore_drops_dotted_fields_witness :
  exists p d',
    prepare_item ["a.b"] (VDict [("a.b", VInt 1)]) = Ok p /\
    restore_item ["a.b"] p = Ok (VDict d') /\
    dict_get "a.b" d' = None.
Proof.
  apply (restore_drops_dotted_fields ["a.b"] [("a.b", VInt 1)] "a.b").
  reflexivity.
Defined.

(** ** The sorting part of [main] *)

Lemma sort_json_list_perm data keys rev policy out :
  sort_json_list data keys rev policy = Ok out ->
  exists s, out = VList s /\ Permutation data s.
Proof.
  intros H. apply sort_json_list_Ok in H as (rl & s & _ & Hs & ->).
  exists s. split; [reflexivity|].
  unfold py_sorted in Hs. now apply sorted_by_perm in Hs.
Qed.

Lemma restore_prepared_list keys data prepared :
  existsb contains_dot keys = true ->
  mapM (prepare_item keys) data = Ok prepared ->
  Forall2 (fun y z => restore_item keys y = Ok z)
          prepared (map (without_flattened keys) data).
Proof.
  intros Hk H. apply mapM_Ok_Forall2 in H.
  induction H as [|x y data prepared Hxy _ IH]; simpl; constructor;
    [|exact IH].
  destruct (is_dict x) eqn:Hx.
  - destruct x; try discriminate.
    destruct (restore_prepared keys d) as (p & Hp & Hr). congruence.
  - destruct (prepare_item_not_dict keys x Hk Hx); congruence.
Qed.

(** What [main] makes of a list: the records in another order, and, when a
    sort key has a dot, without the fields that have the name of such a
    key. *)
Lemma main_list_Ok json_loads data keys flags policy out :
  main_sorted_data json_loads (VList data) keys flags policy = Ok out ->
  exists s,
    out = VList s /\
    Permutation (if existsb contains_dot keys
                 then map (without_flattened keys) data else data) s.
Proof.
  unfold main_sorted_data. cbv zeta.
  destruct (existsb contains_dot keys) eqn:Hk; intros H.
  - apply bind_Ok in H as (dts & Hdts & H).
    apply bind_Ok in Hdts as (prep & Hprep & [= <-]).
    apply bind_Ok in H as (ra & Hra & H).
    apply bind_Ok in H as (sd & Hsd & H).
    rewrite sort_json_data_list in Hsd.
    apply sort_json_list_perm in Hsd as (s & -> & Hperm).
    apply bind_Ok in H as (sd2 & Hsd2 & H).
    apply bind_Ok in Hsd2 as (r & Hr & [= <-]).
    assert (Hout : out = VList r)
      by (destruct r as [|? [|? ?]]; simpl in H; congruence).
    exists r. split; [assumption|].
    pose proof (restore_prepared_list _ _ _ Hk Hprep) as HF.
    destruct (Permutation_Forall2 Hperm HF) as (r' & Hp' & HF').
    apply mapM_Ok_Forall2 in HF'. rewrite HF' in Hr. now injection Hr as <-.
  - apply bind_Ok in H as (dts & [= <-] & H).
    apply bind_Ok in H as (ra & Hra & H).
    apply bind_Ok in H as (sd & Hsd & H).
    rewrite sort_json_data_list in Hsd.
    apply sort_json_list_perm in Hsd as (s & -> & Hperm).
    apply bind_Ok in H as (sd2 & [= <-] & H).
    exists s. split; [|assumption].
    destruct s as [|? [|? ?]]; simpl in H; congruence.
Qed.

(** X12. From a list [main] gives a list of the same records, each as it
    was and as often, in another order, provided that no record has a field
    with the name of a dotted sort key. *)
Theorem main_keeps_the_records (json_loads : string -> result value)
    (data : list value) (keys : list string) (flags : list bool)
    (policy : string) (out : value) :
  (forall d k v, In (VDict d) data -> In (k, v) d -> flattened keys k = false) ->
  main_sorted_data json_loads (VList data) keys flags policy = Ok out ->
  exists s, out = VList s /\ Permutation data s.
Proof.
  intros Hd H. apply main_list_Ok in H as (s & -> & Hperm).
  exists s. split; [reflexivity|].
  destruct (existsb contains_dot keys); [|assumption].
  replace (map (without_flattened keys) data) with data in Hperm;
    [assumption|].
  clear Hperm. induction data as [|x data IH]; simpl; [reflexivity|].
  rewrite <- IH; [|intros d k v Hin; apply Hd; now right]. f_equal.
  destruct x; try reflexivity. symmetry. apply without_flattened_id.
  intros k v. apply Hd. now left.
Qed.

Lemma main_keeps_the_records_witness :
  exists s,
    VList [rec_no_user; rec_user_age] = VList s /\
    Permutation [rec_user_age; rec_no_user] s.
Proof.
  apply (main_keeps_the_records reject_text [rec_user_age; rec_no_user]
           ["user.age"] [] "last" (VList [rec_no_user; rec_user_age])).
  - intros d k v [[= <-]|[[= <-]|[]]] [[= <- <-]|[]]; reflexivity.
  - reflexivity.
Defined.

(** X13. In a list no record is left with a field that has the name of a
    dotted sort key: [main] removes it even from a record that came with
    one. *)
Theorem main_drops_dotted_fields (json_loads : string -> result value)
    (data : list value) (keys : list string) (flags : list bool)
    (policy : string) (s : list value) (k : string) (d : dict) :
  flattened keys k = true ->
  main_sorted_data json_loads (VList data) keys flags policy = Ok (VList s) ->
  In (VDict d) s -> dict_get k d = None.
Proof.
  intros Hk H Hin. apply main_list_Ok in H as (s' & [= <-] & Hperm).
  assert (Hdot : existsb contains_dot keys = true).
  { unfold flattened in Hk. apply andb_true_iff in Hk as [Hk Hdot].
    apply existsb_exists in Hk as (k' & Hk' & E).
    apply String.eqb_eq in E as <-. apply existsb_exists. eauto. }
  rewrite Hdot in Hperm.
  apply (Permutation_in _ (Permutation_sym Hperm)) in Hin.
  apply in_map_iff in Hin as (x & Hx & _).
  destruct x; try discriminate. injection Hx as <-.
  induction d0 as [|[k' v] d0 IH]; simpl; [reflexivity|].
  destruct (flattened keys k') eqn:E; simpl; [exact IH|].
  destruct (String.eqb k k') eqn:Ek; [|exact IH].
  apply String.eqb_eq in Ek as ->. congruence.
Qed.

Lemma main_drops_dotted_fields_witness :
  dict_get "a.b" [("c", VInt 2)] = None.
Proof.
  apply (main_drops_dotted_fields reject_text
           [VDict [("a.b", VInt 1); ("c", VInt 2)]] ["a.b"] [] "last"
           [VDict [("c", VInt 2)]] "a.b" [("c", VInt 2)]).
  - reflexivity.
  - reflexivity.
  - now left.
Defined.

Lemma sort_json_flat_normalize json_loads data keys r1 r2 policy :
  normalize_reverse r1 keys = normalize_reverse r2 keys ->
  sort_json_flat json_loads data keys r1 policy
  = sort_json_flat json_loads data keys r2 policy.
Proof.
  intros Hn.
  assert (Hl : forall l, sort_json_list l keys r1 policy
                         = sort_json_list l keys r2 policy).
  { intros l. unfold sort_json_list. now rewrite Hn. }
  unfold sort_json_flat. destruct data; simpl; try reflexivity; try apply Hl.
  destruct (json_loads s) as [[]|]; simpl; try reflexivity; apply Hl.
Qed.

(** The [reverse] argument counts only through its list of flags. *)
Lemma sort_json_data_normalize json_loads data keys r1 r2 policy :
  normalize_reverse r1 keys = normalize_reverse r2 keys ->
  sort_json_data json_loads data keys r1 policy
  = sort_json_data json_loads data keys r2 policy.
Proof.
  intros Hn.
  pose proof (fun x => sort_json_flat_normalize json_loads x keys r1 r2 policy Hn)
    as Hf.
  unfold sort_json_data.
  destruct data as [| | | | |l|d]; try apply Hf.
  destruct d as [|[k v] d]; [apply Hf|].
  destruct v; try apply Hf. destruct d; [|apply Hf]. now rewrite Hf.
Qed.

(** X14. One flag after [--reverse] stands for that flag once per sort key:
    [main] gives the same result for both. *)
Theorem main_one_flag_is_for_every_key (json_loads : string -> result value)
    (data : value) (keys : list string) (b : bool) (policy : string) :
  main_sorted_data json_loads data keys [b] policy
  = main_sorted_data json_loads data keys (repeat b (length keys)) policy.
Proof.
  assert (Hra : exists r1 r2,
             main_reverse_arg [b] keys = Ok r1 /\
             main_reverse_arg (repeat b (length keys)) keys = Ok r2 /\
             normalize_reverse r1 keys = normalize_reverse r2 keys).
  { destruct keys as [|k1 [|k2 keys]].
    - exists (RevBool b), (RevBool false). now repeat split.
    - exists (RevBool b), (RevBool b). now repeat split.
    - exists (RevBool b), (RevList (repeat b (length (k1 :: k2 :: keys)))).
      split; [reflexivity|]. split.
      + cbn [length repeat main_reverse_arg]. rewrite repeat_length.
        now rewrite Nat.eqb_refl.
      + cbn [normalize_reverse]. rewrite repeat_length.
        now rewrite Nat.eqb_refl. }
  destruct Hra as (r1 & r2 & H1 & H2 & Hn).
  unfold main_sorted_data. rewrite H1, H2. cbv zeta.
  destruct (match data with
            | VList l =>
                if existsb contains_dot keys
                then let* p := prepare_data_with_nested_keys l keys in
                     Ok (VList p)
                else Ok data
            | _ => Ok data
            end) as [dts|e]; [|reflexivity].
  cbn [bind]. now rewrite (sort_json_data_normalize _ _ _ r1 r2 _ Hn).
Qed.

Lemma sort_json_list_singleton x keys rev policy out :
  sort_json_list [x] keys rev policy = Ok out -> out = VList [x].
Proof.
  intros H. apply sort_json_list_perm in H as (s & -> & Hperm).
  now apply Permutation_length_1_inv in Hperm as ->.
Qed.

(** X15. From a dict [main] gives a dict: the same dict when it is a single
    record, and for a dict that wraps one list the same wrapping around the
    records of the list in another order.  Dot paths are not flattened
    there. *)
Theorem main_on_a_dict (json_loads : string -> result value)
    (d : dict) (keys : list string) (flags : list bool) (policy : string)
    (out : value) :
  main_sorted_data json_loads (VDict d) keys flags policy = Ok out ->
  match d with
  | [(k, VList l)] => exists s, out = VDict [(k, VList s)] /\ Permutation l s
  | _ => out = VDict d
  end.
Proof.
  unfold main_sorted_data. cbv zeta. cbn [bind]. intros H.
  apply bind_Ok in H as (ra & _ & H).
  apply bind_Ok in H as (sd & Hsd & H). cbn [bind] in H.
  rewrite sort_json_data_collection in Hsd by reflexivity.
  assert (Hone : sort_json_list [VDict d] keys ra policy = Ok sd ->
                 out = VDict d).
  { intros Hs. apply sort_json_list_singleton in Hs as ->.
    simpl in H. congruence. }
  destruct d as [|[k v] d]; [exact (Hone Hsd)|].
  destruct v; try exact (Hone Hsd). destruct d; [|exact (Hone Hsd)].
  clear Hone. simpl in Hsd. unfold rmap in Hsd.
  apply bind_Ok in Hsd as (inner & Hinner & [= <-]).
  apply sort_json_list_perm in Hinner as (s & -> & Hperm).
  exists s. split; [simpl in H; congruence | assumption].
Qed.

Lemma main_on_a_dict_witness :
  exists s,
    VDict [("items", VList [rec_a (VInt 1); rec_a (VInt 2)])]
    = VDict [("items", VList s)] /\
    Permutation [rec_a (VInt 2); rec_a (VInt 1)] s.
Proof.
  apply (main_on_a_dict reject_text
           [("items", VList [rec_a (VInt 2); rec_a (VInt 1)])]
           ["a"] [true] "last"
           (VDict [("items", VList [rec_a (VInt 1); rec_a (VInt 2)])])).
  reflexivity.
Defined.

(** ** Which objects the lists returned are made of *)

(** X16. The list that the sort returns is a new object, and its items are
    the item objects of the list it was given, each once: [sorted] copies no
    record.  No other object is made or changed. *)
Theorem sorted_list_shares_the_records (data : loc) (keys : list string)
    (flags : reverse_arg) (policy : string) (h : heap) (ls : list loc)
    (vs : list value) (out : loc) (h' : heap) :
  h !! data = Some (OList ls) -> Forall2 (item_is h) ls vs ->
  sort_json_list_h data keys flags policy h = Some (Ok out, h') ->
  h !! out = None /\
  exists ls', h' = <[out := OList ls']> h /\ Permutation ls ls'.
Proof.
  intros Hdata Hls. unfold sort_json_list_h.
  destruct (normalize_reverse flags keys) as [rl|e]; [|discriminate].
  rewrite (bindM_Ok (lift (Ok rl)) _ h rl h eq_refl).
  rewrite (bindM_Ok _ _ _ _ _ (read_list_run _ _ _ Hdata)).
  rewrite (bindM_Ok _ _ _ _ _ (read_items_run _ _ _ Hls)).
  unfold py_sorted.
  destruct (sorted_by tuple_lt (fun iv => sort_key policy keys rl (snd iv))
              (combine ls vs)) as [sp|e] eqn:Hs;
    [|unfold bindM, lift; discriminate].
  rewrite (bindM_Ok (lift (Ok sp)) _ h sp h eq_refl).
  destruct (alloc_run (OList (map fst sp)) h) as [Ha Hfresh].
  rewrite Ha. intros [= <- <-]. split; [assumption|].
  exists (map fst sp). split; [reflexivity|].
  apply sorted_by_perm in Hs. apply (Permutation_map fst) in Hs.
  replace (map fst (combine ls vs)) with ls in Hs; [assumption|].
  clear -Hls. induction Hls; simpl; congruence.
Qed.

Lemma sorted_list_shares_the_records_witness :
  store_of_two_numbers !! 3 = None /\
  exists ls',
    <[3 := OList [1; 0]]> store_of_two_numbers
    = <[3 := OList ls']> store_of_two_numbers /\
    Permutation [0; 1] ls'.
Proof.
  apply (sorted_list_shares_the_records 2 ["a"] (RevBool false) "first"
           store_of_two_numbers [0; 1] [rec_a (VInt 2); rec_a (VInt 1)] 3
           (<[3 := OList [1; 0]]> store_of_two_numbers)).
  - reflexivity.
  - repeat constructor.
  - vm_compute. reflexivity.
Defined.

(** The loop of [prepare_data_with_nested_keys] appends only objects that
    the store [h0] of the caller does not have. *)
Lemma append_loop_new (f : loc -> M loc) fp lst (h0 : heap) :
  makes_item f fp ->
  forall items vs h acc u h',
    (forall l, h !! l = None -> h0 !! l = None) ->
    Forall2 (item_is h) items vs ->
    h !! lst = Some (OList acc) ->
    Forall (unused h0) acc ->
    for_each (fun item => do* y := f item in append_h lst y) items h
    = Some (Ok u, h') ->
    exists acc',
      h' !! lst = Some (OList acc') /\
      Forall (unused h0) acc' /\
      length acc' = length acc + length items.
Proof.
  intros Hf items. induction items as [|item items IH];
    intros vs h acc u h' Hdom Hitems Hlst Hacc Hrun;
    inversion Hitems as [|? v ? vs' Hitem Hitems']; subst.
  - simpl in Hrun. injection Hrun as _ <-. exists acc.
    rewrite Nat.add_0_r. auto.
  - destruct (Hf h item v Hitem) as (r & h1 & Hf1 & Hsub & Hres).
    simpl in Hrun. destruct r as [l'|e];
      [|rewrite (bindM_Err _ _ _ _ _ (bindM_Err _ _ _ _ _ Hf1)) in Hrun;
        discriminate].
    destruct Hres as (Hnew & v' & Hl' & _).
    pose proof (lookup_weaken _ _ _ _ Hlst Hsub) as Hlst1.
    remember (<[lst := OList (acc ++ [l'])]> h1) as h2 eqn:Hh2.
    assert (Hstep : (do* y := f item in append_h lst y) h = Some (Ok tt, h2)).
    { rewrite (bindM_Ok _ _ _ _ _ Hf1). unfold append_h.
      rewrite (bindM_Ok _ _ _ _ _ (read_list_run _ _ _ Hlst1)).
      unfold write. now rewrite Hlst1, Hh2. }
    rewrite (bindM_Ok _ _ _ _ _ Hstep) in Hrun.
    destruct (IH vs' h2 (acc ++ [l']) u h') as (acc' & Hl & Hall & Hlen).
    + intros l Hl. subst h2. apply lookup_insert_None in Hl as [Hl _].
      apply Hdom. destruct (h !! l) eqn:E; [|reflexivity].
      apply (lookup_weaken _ _ _ _ E) in Hsub. congruence.
    + eapply Forall2_impl; [exact Hitems'|].
      intros l w Hw. unfold item_is in *. subst h2.
      rewrite lookup_insert_ne; [eapply lookup_weaken; eauto | congruence].
    + subst h2. now rewrite lookup_insert_eq.
    + apply Forall_app. split; [assumption|].
      constructor; [|constructor]. now apply Hdom.
    + assumption.
    + exists acc'. rewrite Hlen, length_app. simpl.
      split; [assumption|]. split; [assumption | lia].
Qed.

(** X17. The list of flattened records is a new object and so is each of
    its items, one for each item of the list given: flattening works on
    copies, not on the records of the caller. *)
Theorem prepared_records_are_new (data : loc) (keys : list string)
    (h : heap) (ls : list loc) (vs : list value) (out : loc) (h' : heap) :
  h !! data = Some (OList ls) -> Forall2 (item_is h) ls vs ->
  prepare_data_with_nested_keys_h data keys h = Some (Ok out, h') ->
  h !! out = None /\
  exists ls',
    h' !! out = Some (OList ls') /\
    Forall (unused h) ls' /\
    length ls' = length ls.
Proof.
  intros Hdata Hls. unfold prepare_data_with_nested_keys_h.
  destruct (alloc_run (OList []) h) as [Ha Hfresh].
  rewrite (bindM_Ok _ _ _ _ _ Ha).
  remember (fresh (dom h)) as lst eqn:Hlst.
  remember (<[lst := OList []]> h) as h1 eqn:Hh1.
  assert (Hsub : h ⊆ h1) by (subst h1; now apply insert_subseteq).
  rewrite (bindM_Ok _ _ _ _ _
             (read_list_run _ _ _ (lookup_weaken _ _ _ _ Hdata Hsub))).
  assert (Hbody : forall item h0,
            (do* flat_item := copy_h item in
             do* _u := for_each (flatten_key_h item flat_item) keys in
             append_h lst flat_item) h0
            = (do* y := prepare_item_h keys item in append_h lst y) h0).
  { intros item h0. unfold prepare_item_h, bindM.
    destruct (copy_h item h0) as [[[l|e] h2]|]; try reflexivity.
    destruct (for_each _ keys h2) as [[[u|e] h3]|]; reflexivity. }
  intros Hrun. unfold bindM at 1 in Hrun.
  rewrite (for_each_ext
             (fun item =>
                do* flat_item := copy_h item in
                do* _u := for_each (flatten_key_h item flat_item) keys in
                append_h lst flat_item)
             (fun item => do* y := prepare_item_h keys item in
                          append_h lst y)
             _ _ Hbody) in Hrun.
  destruct (for_each _ ls h1) as [[[u|e] h2]|] eqn:Hloop; try discriminate.
  injection Hrun as <- <-.
  destruct (append_loop_new (prepare_item_h keys) (prepare_item keys) lst h
              (prepare_item_makes keys) ls vs h1 [] u h2)
    as (acc' & Hl & Hall & Hlen).
  - intros l Hl. subst h1. now apply lookup_insert_None in Hl as [Hl _].
  - eapply item_is_weaken; eauto.
  - subst h1. now rewrite lookup_insert_eq.
  - constructor.
  - exact Hloop.
  - split; [assumption|]. exists acc'. auto.
Qed.

Lemma prepared_records_are_new_witness :
  store_of_two_records !! 3 = None /\
  exists ls',
    <[5 := OItem (VDict [("name", VStr "x"); ("user.age", VNone)])]>
      (<[3 := OList [4; 5]]>
         (<[4 := OItem (VDict [("user", VDict [("age", VInt 30)]);
                               ("user.age", VInt 30)])]>
            store_of_two_records)) !! 3 = Some (OList ls') /\
    Forall (unused store_of_two_records) ls' /\
    length ls' = length [0; 1].
Proof.
  apply (prepared_records_are_new 2 ["user.age"] store_of_two_records
           [0; 1] [rec_user_age; rec_no_user] 3).
  - reflexivity.
  - repeat constructor.
  - vm_compute. reflexivity.
Defined.

(** ** When [sort_json_data] raises and when it cannot *)

Lemma get_sort_value_dict policy d k r :
  policy <> "first" -> policy <> "last" ->
  match dict_get k d with
  | Some _ => exists w, get_sort_value policy (VDict d) k r = Ok w
  | None => exists msg, get_sort_value policy (VDict d) k r = Err (KeyError msg)
  end.
Proof.
  intros Hf Hl. apply String.eqb_neq in Hf, Hl.
  unfold get_sort_value, lookup_value. simpl.
  destruct (dict_get k d) as [v|]; simpl.
  - destruct v; eauto.
  - rewrite Hf, Hl. destruct (String.eqb policy "error"); eauto.
Qed.

Lemma sort_key_dict policy keys rl d :
  policy <> "first" -> policy <> "last" -> length rl = length keys ->
  if lacks_key keys (VDict d)
  then exists msg, sort_key policy keys rl (VDict d) = Err (KeyError msg)
  else exists t, sort_key policy keys rl (VDict d) = Ok t.
Proof.
  intros Hf Hl. unfold sort_key. revert rl.
  induction keys as [|k keys IH]; intros [|r rl] Hlen; try discriminate;
    simpl; [eauto|].
  pose proof (get_sort_value_dict policy d k r Hf Hl) as Hk.
  destruct (dict_get k d) as [v|]; simpl.
  - destruct Hk as (w & ->). cbn [bind].
    specialize (IH rl ltac:(simpl in Hlen; lia)). simpl in IH.
    destruct (existsb _ keys).
    + destruct IH as (msg & ->). simpl. eauto.
    + destruct IH as (t & ->). simpl. eauto.
  - destruct Hk as (msg & ->). simpl. eauto.
Qed.

Lemma mapM_first_KeyError {A B} (f : A -> result B) l :
  (forall x, In x l ->
     (exists y, f x = Ok y) \/ exists msg, f x = Err (KeyError msg)) ->
  (exists x, In x l /\ exists msg, f x = Err (KeyError msg)) ->
  exists msg, mapM f l = Err (KeyError msg).
Proof.
  induction l as [|x l IH]; intros Hall (x0 & Hin & Hx0); [destruct Hin|].
  simpl. destruct (Hall x (or_introl eq_refl)) as [(y & Hy) | (msg & ->)];
    [|simpl; eauto].
  rewrite Hy. cbn [bind]. destruct IH as (msg & ->); [| |simpl; eauto].
  - intros z Hz. apply Hall. now right.
  - destruct Hin as [<-|Hin]; [|eauto].
    destruct Hx0 as (msg & Hx0). congruence.
Qed.

(** X18. On a list of dicts, with a strategy other than "first" and "last"
    and flags that fit the keys, the sort ends with a [KeyError] exactly
    when some record lacks one of the sort keys: the keys of all records
    are computed before any two are compared. *)
Theorem missing_key_raises_KeyError (json_loads : string -> result value)
    (data : list value) (keys : list string) (flags : reverse_arg)
    (rl : list bool) (policy : string) :
  normalize_reverse flags keys = Ok rl ->
  policy <> "first" -> policy <> "last" ->
  forallb is_dict data = true ->
  existsb (lacks_key keys) data = true <->
  exists msg,
    sort_json_data json_loads (VList data) keys flags policy
    = Err (KeyError msg).
Proof.
  intros Hrl Hf Hl Hd. rewrite sort_json_data_list. unfold sort_json_list.
  rewrite Hrl. cbn [bind]. unfold py_sorted.
  pose proof (normalize_reverse_length _ _ _ Hrl) as Hlen.
  assert (Hkey : forall x, In x data ->
            if lacks_key keys x
            then exists msg, sort_key policy keys rl x = Err (KeyError msg)
            else exists t, sort_key policy keys rl x = Ok t).
  { intros x Hx. rewrite forallb_forall in Hd. specialize (Hd x Hx).
    destruct x; try discriminate. now apply sort_key_dict. }
  split.
  - intros Hex. apply existsb_exists in Hex as (x & Hx & Hlack).
    rewrite sorted_by_unfold.
    destruct (mapM_first_KeyError (with_key (sort_key policy keys rl)) data)
      as (msg & ->); [| |simpl; eauto].
    + intros z Hz. specialize (Hkey z Hz). unfold with_key.
      destruct (lacks_key keys z).
      * destruct Hkey as (msg & ->). right. simpl. eauto.
      * destruct Hkey as (t & ->). left. simpl. eauto.
    + exists x. split; [assumption|]. specialize (Hkey x Hx).
      rewrite Hlack in Hkey. destruct Hkey as (msg & Hmsg).
      unfold with_key. rewrite Hmsg. simpl. eauto.
  - intros (msg & H).
    destruct (sorted_by tuple_lt (sort_key policy keys rl) data)
      as [out|e] eqn:Hs; [discriminate|].
    injection H as ->.
    apply sorted_by_Err in Hs as [(x & Hx & Hs) | (a & b & Hs)].
    + apply existsb_exists. exists x. split; [assumption|].
      specialize (Hkey x Hx). destruct (lacks_key keys x); [reflexivity|].
      destruct Hkey as (t & Ht). congruence.
    + apply tuple_lt_Err in Hs. discriminate.
Qed.

Lemma missing_key_raises_KeyError_witness :
  existsb (lacks_key ["a"]) [rec_a (VInt 1); rec_empty] = true <->
  exists msg,
    sort_json_data reject_text (VList [rec_a (VInt 1); rec_empty]) ["a"]
      (RevBool false) "error"
    = Err (KeyError msg).
Proof.
  apply (missing_key_raises_KeyError reject_text [rec_a (VInt 1); rec_empty]
           ["a"] (RevBool false) [false] "error").
  - reflexivity.
  - discriminate.
  - discriminate.
  - reflexivity.
Defined.

Section SortedByTotal.
Context {A K : Type}.
Variable lt : K -> K -> result bool.

Lemma keyed_total (key : A -> result K) (l : list A) :
  (forall x, In x l -> exists k, key x = Ok k) ->
  exists keyed,
    mapM (with_key key) l = Ok keyed /\
    forall u, In u keyed -> In (snd u) l /\ key (snd u) = Ok (fst u).
Proof.
  induction l as [|x l IH]; intros H.
  - exists []. split; [reflexivity | intros u []].
  - destruct (H x (or_introl eq_refl)) as (kx & Hx).
    destruct IH as (keyed & Hm & Hk); [intros; apply H; now right|].
    exists ((kx, x) :: keyed). split.
    + simpl. unfold with_key at 1. rewrite Hx. cbn [bind]. now rewrite Hm.
    + intros u [<-|Hu]; simpl; [split; [now left | assumption]|].
      destruct (Hk u Hu). split; [now right | assumption].
Qed.

(** [sorted] returns when the key function does and every two keys can be
    compared. *)
Lemma sorted_by_total (key : A -> result K) (l : list A) :
  (forall x y, In x l -> In y l ->
     exists kx ky r, key x = Ok kx /\ key y = Ok ky /\ lt kx ky = Ok r) ->
  exists out, sorted_by lt key l = Ok out.
Proof.
  intros H. rewrite sorted_by_unfold.
  destruct (keyed_total key l) as (keyed & -> & Hk).
  { intros x Hx. destruct (H x x Hx Hx) as (kx & _ & _ & Hkx & _). eauto. }
  cbn [bind].
  destruct (sort_keyed_total lt keyed) as (r & ->); [|simpl; eauto].
  intros u v Hu Hv.
  destruct (Hk u Hu) as [Hul Hku]. destruct (Hk v Hv) as [Hvl Hkv].
  destruct (H _ _ Hul Hvl) as (kx & ky & r & Hx & Hy & Hr).
  exists r. congruence.
Qed.
End SortedByTotal.

Lemma py_lt_comparable a b :
  comparable a b = true -> exists r, py_lt a b = Ok r.
Proof. destruct a, b; simpl; try discriminate; eauto. Qed.

Lemma tuple_lt_comparable t1 t2 :
  Forall2 (fun a b => comparable a b = true) t1 t2 ->
  exists r, tuple_lt t1 t2 = Ok r.
Proof.
  unfold tuple_lt. induction 1 as [|a b t1 t2 Hab _ IH]; simpl; [eauto|].
  destruct (py_same_or_eq a b); [exact IH | now apply py_lt_comparable].
Qed.

Lemma get_sort_value_number policy x k r :
  policy = "first" \/ policy = "last" -> number_or_absent k x = true ->
  exists v, get_sort_value policy x k r = Ok v /\ is_numeric v = true.
Proof.
  intros Hp. destruct x; try discriminate.
  unfold number_or_absent, get_sort_value, lookup_value. simpl.
  destruct (dict_get k d) as [v|]; simpl.
  - destruct v; simpl; try discriminate; intros _; eauto.
    destruct r; simpl; eauto.
  - intros _. destruct Hp as [-> | ->]; simpl; destruct r; simpl; eauto.
Qed.

Lemma get_sort_value_text policy x k r :
  text_at k x = true ->
  exists v, get_sort_value policy x k r = Ok v /\ is_text v = true.
Proof.
  destruct x; try discriminate.
  unfold text_at, get_sort_value, lookup_value. simpl.
  destruct (dict_get k d) as [v|]; simpl; [|discriminate].
  destruct v; simpl; try discriminate; eauto.
Qed.

Lemma sort_key_one_kind policy keys rl data x y :
  policy = "first" \/ policy = "last" ->
  forallb (one_kind data) keys = true -> In x data -> In y data ->
  exists tx ty,
    sort_key policy keys rl x = Ok tx /\
    sort_key policy keys rl y = Ok ty /\
    Forall2 (fun a b => comparable a b = true) tx ty.
Proof.
  intros Hp Hk Hx Hy. unfold sort_key. revert rl Hk.
  induction keys as [|k keys IH]; intros rl Hk;
    [exists [], []; repeat split; constructor|].
  destruct rl as [|r rl]; [exists [], []; repeat split; constructor|].
  simpl in Hk. apply andb_true_iff in Hk as [Hkind Hk].
  destruct (IH rl Hk) as (tx & ty & Htx & Hty & Hc). simpl.
  rewrite Htx, Hty. unfold one_kind in Hkind.
  apply orb_true_iff in Hkind as [Hkind | Hkind];
    rewrite forallb_forall in Hkind.
  - destruct (get_sort_value_number policy x k r Hp (Hkind x Hx))
      as (vx & -> & Hvx).
    destruct (get_sort_value_number policy y k r Hp (Hkind y Hy))
      as (vy & -> & Hvy).
    exists (vx :: tx), (vy :: ty). repeat split. constructor; [|assumption].
    unfold comparable. now rewrite Hvx, Hvy.
  - destruct (get_sort_value_text policy x k r (Hkind x Hx))
      as (vx & -> & Hvx).
    destruct (get_sort_value_text policy y k r (Hkind y Hy))
      as (vy & -> & Hvy).
    exists (vx :: tx), (vy :: ty). repeat split. constructor; [|assumption].
    unfold comparable. rewrite Hvx, Hvy. apply orb_true_r.
Qed.

(** X19. Under "first" and "last", with flags that fit the keys, the sort
    cannot raise on records where each sort key is of one kind: a number
    in every record that has it (null and missing allowed), or a text in
    every record.  It returns the records in some order. *)
Theorem one_kind_per_key_sorts (json_loads : string -> result value)
    (data : list value) (keys : list string) (flags : reverse_arg)
    (rl : list bool) (policy : string) :
  policy = "first" \/ policy = "last" ->
  normalize_reverse flags keys = Ok rl ->
  forallb (one_kind data) keys = true ->
  exists out,
    sort_json_data json_loads (VList data) keys flags policy = Ok (VList out)
    /\ Permutation data out.
Proof.
  intros Hp Hrl Hk. rewrite sort_json_data_list. unfold sort_json_list.
  rewrite Hrl. cbn [bind]. unfold py_sorted.
  destruct (sorted_by_total tuple_lt (sort_key policy keys rl) data)
    as (out & Hout).
  - intros x y Hx Hy.
    destruct (sort_key_one_kind policy keys rl data x y Hp Hk Hx Hy)
      as (tx & ty & Htx & Hty & Hc).
    destruct (tuple_lt_comparable _ _ Hc) as (r & Hr).
    exists tx, ty, r. auto.
  - exists out. rewrite Hout. split; [reflexivity|].
    now apply sorted_by_perm in Hout.
Qed.

Lemma one_kind_per_key_sorts_witness :
  exists out,
    sort_json_data reject_text
      (VList [rec_a (VInt 2); rec_empty; rec_a VNone; rec_a (VBool true)])
      ["a"] (RevList [true]) "last"
    = Ok (VList out) /\
    Permutation [rec_a (VInt 2); rec_empty; rec_a VNone; rec_a (VBool true)]
                out.
Proof.
  apply (one_kind_per_key_sorts reject_text
           [rec_a (VInt 2); rec_empty; rec_a VNone; rec_a (VBool true)]
           ["a"] (RevList [true]) [true] "last").
  - now right.
  - reflexivity.
  - reflexivity.
Defined.

(** ** The order of the records returned *)




(** ** The flags that [main] passes on *)

(** X22. The flags that [main] passes to [sort_json_data] always fit the
    keys: the engine's own check of their number cannot fail there. *)
Theorem main_flags_always_fit (flags : list bool) (keys : list string)
    (ra : reverse_arg) :
  main_reverse_arg flags keys = Ok ra ->
  exists rl, normalize_reverse ra keys = Ok rl /\ length rl = length keys.
Proof.
  intros H.
  assert (Hone : forall b, exists rl,
            normalize_reverse (RevBool b) keys = Ok rl /\
            length rl = length keys).
  { intros b. eexists. split; [reflexivity | apply repeat_length]. }
  destruct flags as [|b1 [|b2 flags]]; cbn [main_reverse_arg] in H.
  - injection H as <-. apply Hone.
  - injection H as <-. apply Hone.
  - unfold normalize_reverse.
    destruct (Nat.eqb_spec (length (b1 :: b2 :: flags)) (length keys))
      as [E|E]; simpl in H; [|discriminate].
    injection H as <-. exists (b1 :: b2 :: flags).
    apply Nat.eqb_eq in E as E'. rewrite E'. simpl. auto.
Qed.

Lemma main_flags_always_fit_witness :
  exists rl,
    normalize_reverse (RevList [true; false]) ["a"; "b"] = Ok rl /\
    length rl = length ["a"; "b"].
Proof.
  apply (main_flags_always_fit [true; false] ["a"; "b"]
           (RevList [true; false])).
  reflexivity.
Defined.
